(** * Multi-round tool orchestration of the course-materials chatbot

    A shallow embedding of [backend/ai_generator.py] (class [AIGenerator])
    and of the search capability exercised by
    [backend/tests/test_course_search_tool.py].

    Python objects that the engine shares or mutates (the [messages] list
    and the request dictionaries) live in an explicit heap, so aliasing is
    visible.  The model provider and the tool dispatcher are external
    collaborators: they are oracles that see the history of interactions
    and either return a value or raise.  Every interaction is recorded in a
    trace, which is what the statements about call counts and ordering
    speak about. *)

From Stdlib Require Import ZArith Ascii String List Lia.
From stdpp Require Import gmap strings list fin_maps pretty.

Local Open Scope string_scope.
Local Open Scope Z_scope.
Local Open Scope list_scope.

(** ** Characters that a string literal cannot hold directly *)

Definition nl : string := String "010"%char EmptyString.
Definition dq : string := String "034"%char EmptyString.

(** ** Data model *)

(** Argument values of a tool invocation (string keys to primitives). *)
Inductive ArgValue :=
| AStr (s : string)
| AInt (z : Z).

Definition kwargs := list (string * ArgValue).

(** A block of a model reply: [content_block.type] is either ["text"] or
    ["tool_use"]. *)
Inductive ContentBlock :=
| TextBlock (text : string)
| ToolUseBlock (name : string) (id : string) (input : kwargs).

Record Response := mkResponse {
  stop_reason : string;
  content : list ContentBlock
}.

(** [{"type": "tool_result", "tool_use_id": ..., "content": ...}] *)
Record ToolResult := mkToolResult {
  tool_use_id : string;
  result_content : string
}.

Inductive MessageContent :=
| TextContent (s : string)
| BlockContent (bs : list ContentBlock)
| ResultContent (rs : list ToolResult).

(** [{"role": ..., "content": ...}] *)
Record Message := mkMessage {
  role : string;
  msg_content : MessageContent
}.

Record ToolDef := mkToolDef {
  tool_name : string;
  tool_description : string
}.

Definition loc := nat.

(** Values stored under the keys of a request dictionary. *)
Inductive Value :=
| VStr (s : string)
| VInt (z : Z)
| VList (l : loc)
| VTools (ts : list ToolDef)
| VChoice (type : string).

(** Heap objects: message lists and request dictionaries. *)
Inductive Object :=
| OList (ms : list Message)
| ODict (d : gmap string Value).

(** A raised Python exception: its class name and [str(e)].  [PyExn]
    is an instance of a class derived from [Exception]; [PyBaseExn] is
    any other [BaseException], such as [KeyboardInterrupt], [SystemExit]
    or [GeneratorExit]. *)
Inductive exn :=
| PyExn (cls : string) (msg : string)
| PyBaseExn (cls : string) (msg : string).

Definition str (e : exn) : string :=
  match e with
  | PyExn _ msg => msg
  | PyBaseExn _ msg => msg
  end.

(** [isinstance(e, Exception)] *)
Definition is_Exception (e : exn) : bool :=
  match e with
  | PyExn _ _ => true
  | PyBaseExn _ _ => false
  end.

Inductive result (A : Type) :=
| Ok (a : A)
| Raise (e : exn).

Arguments Ok {A} a.
Arguments Raise {A} e.

(** What the provider receives: the keyword arguments and the transcript
    the [messages] argument refers to at the time of the call. *)
Record Request := mkRequest {
  req_params : gmap string Value;
  req_messages : list Message
}.

Inductive Event :=
| EvApi (req : Request) (res : result Response)
| EvTool (name : string) (input : kwargs) (res : result string).

Record World := mkWorld {
  heap : gmap loc Object;
  trace : list Event
}.

(** The collaborators, as functions of the interaction history. *)
Definition Client := list Event -> Request -> result Response.
Definition ToolManager := list Event -> string -> kwargs -> result string.

Record AIGenerator := mkAIGenerator {
  client : Client;
  model : string
}.

(** ** State and exception monad *)

Definition M (A : Type) : Type := World -> result A * World.

Definition ret {A} (a : A) : M A := fun w => (Ok a, w).

Definition raise {A} (e : exn) : M A := fun w => (Raise e, w).

Definition bind {A B} (m : M A) (f : A -> M B) : M B :=
  fun w =>
    match m w with
    | (Ok a, w') => f a w'
    | (Raise e, w') => (Raise e, w')
    end.

(** [try: ... except Exception as e: ...] hands the value or the caught
    exception to what follows; an exception that is no instance of
    [Exception] is not caught and goes on to the caller. *)
Definition try {A} (m : M A) : M (result A) :=
  fun w =>
    match m w with
    | (Ok a, w') => (Ok (Ok a), w')
    | (Raise e, w') =>
        if is_Exception e then (Ok (Raise e), w') else (Raise e, w')
    end.

Declare Scope py_scope.
Delimit Scope py_scope with py.
Notation "x <- m ;; k" := (bind m (fun x => k))
  (at level 100, m at next level, right associativity) : py_scope.
Notation "m ;;; k" := (bind m (fun _ => k))
  (at level 100, right associativity) : py_scope.
Local Open Scope py_scope.

(** ** Heap primitives *)

Definition alloc (o : Object) : M loc :=
  fun w =>
    let l := fresh (dom (heap w)) in
    (Ok l, mkWorld (<[l := o]> (heap w)) (trace w)).

Definition store (l : loc) (o : Object) : M unit :=
  fun w => (Ok tt, mkWorld (<[l := o]> (heap w)) (trace w)).

Definition list_obj (l : loc) : M (list Message) :=
  fun w =>
    match heap w !! l with
    | Some (OList ms) => (Ok ms, w)
    | _ => (Raise (PyExn "TypeError" "not a message list"), w)
    end.

Definition dict_obj (l : loc) : M (gmap string Value) :=
  fun w =>
    match heap w !! l with
    | Some (ODict d) => (Ok d, w)
    | _ => (Raise (PyExn "TypeError" "not a dict"), w)
    end.

(** [l.copy()] *)
Definition list_copy (l : loc) : M loc :=
  ms <- list_obj l ;; alloc (OList ms).

(** [l.append(m)] *)
Definition list_append (l : loc) (m : Message) : M unit :=
  ms <- list_obj l ;; store l (OList (ms ++ [m])).

(** [d[k]] *)
Definition dict_getitem (d : loc) (k : string) : M Value :=
  m <- dict_obj d ;;
  match m !! k with
  | Some v => ret v
  | None => raise (PyExn "KeyError" k)
  end.

(** [d.get(k)] *)
Definition dict_get (d : loc) (k : string) : M (option Value) :=
  m <- dict_obj d ;; ret (m !! k).

(** [d[k] = v] *)
Definition dict_setitem (d : loc) (k : string) (v : Value) : M unit :=
  m <- dict_obj d ;; store d (ODict (<[k := v]> m)).

(** Python truthiness of the values a request dictionary can hold. *)
Definition truthy (v : Value) : M bool :=
  match v with
  | VStr s => ret (negb (String.eqb s EmptyString))
  | VInt z => ret (negb (z =? 0))
  | VList l => ms <- list_obj l ;; ret (negb (Nat.eqb (length ms) 0))
  | VTools ts => ret (negb (Nat.eqb (length ts) 0))
  | VChoice _ => ret true
  end.

Definition truthy_opt (o : option Value) : M bool :=
  match o with
  | Some v => truthy v
  | None => ret false
  end.

(** ** The collaborators' entry points *)

(** [self.client.messages.create], called with the dictionary unpacked
    into keyword arguments. *)
Definition messages_create (self : AIGenerator) (api_params : loc) : M Response :=
  d <- dict_obj api_params ;;
  msgs <- match d !! "messages" with
          | Some (VList l) => list_obj l
          | _ => raise (PyExn "TypeError" "messages")
          end ;;
  let req := mkRequest d msgs in
  fun w =>
    let r := client self (trace w) req in
    (r, mkWorld (heap w) (trace w ++ [EvApi req r])).

(** [tool_manager.execute_tool], called with the tool name and the
    block input unpacked into keyword arguments. *)
Definition execute_tool (tool_manager : ToolManager) (name : string)
    (input : kwargs) : M string :=
  fun w =>
    let r := tool_manager (trace w) name input in
    (r, mkWorld (heap w) (trace w ++ [EvTool name input r])).

(** ** [AIGenerator] *)

Definition SYSTEM_PROMPT : string :=
  String.concat nl
    [ " You are an AI assistant specialized in course materials and educational content with access to search and outline tools for course information.";
      EmptyString;
      "Tool Selection and Sequential Usage:";
      "- **Course Outline Tool**: Use for questions about course structure, lesson lists, or course overviews (returns course title, course link, and complete numbered lesson list)";
      "- **Content Search Tool**: Use for questions about specific course content or detailed educational materials  ";
      "- **Sequential Tool Usage**: You can make up to 2 tool calls in sequence per user query";
      "  - Use the first tool call to gather initial information";
      "  - If needed, make a second tool call to gather additional or more specific information";
      "  - After 2 tool calls, provide your final response based on all gathered information";
      "- Synthesize tool results into accurate, fact-based responses";
      "- If tool yields no results, state this clearly without offering alternatives";
      EmptyString;
      "Sequential Tool Strategy Examples:";
      "- **Broad then Specific**: First search broadly, then search within specific course/lesson based on initial results";
      "- **Multiple Courses**: Search one course, then search another if the first doesn't have relevant content";
      "- **Outline then Content**: Get course outline first, then search specific lesson content";
      "- **Content then Outline**: Search for content, then get course structure if more context needed";
      EmptyString;
      "Response Protocol:";
      "- **General knowledge questions**: Answer using existing knowledge without searching";
      "- **Course-specific questions**: Search first, then answer";
      "- **No meta-commentary**:";
      " - Provide direct answers only â€” no reasoning process, search explanations, or question-type analysis";
      " - Do not mention " +:+ dq +:+ "based on the search results" +:+ dq;
      EmptyString;
      "All responses must be:";
      "1. **Brief, Concise and focused** - Get to the point quickly";
      "2. **Educational** - Maintain instructional value";
      "3. **Clear** - Use accessible language";
      "4. **Example-supported** - Include relevant examples when they aid understanding";
      "Provide only the direct answer to what was asked.";
      EmptyString ].

(** [self.base_params], built once in [__init__]. *)
Definition base_params (self : AIGenerator) : gmap string Value :=
  <["max_tokens" := VInt 800]>
    (<["temperature" := VInt 0]> (<["model" := VStr (model self)]> ∅)).

Definition NO_TEXT : string := "No text response available".

Definition APOLOGY : string :=
  "I encountered an error while searching for information. Please try rephrasing your question.".

Definition is_tool_use (b : ContentBlock) : bool :=
  match b with
  | ToolUseBlock _ _ _ => true
  | TextBlock _ => false
  end.

(** [_has_tool_use] *)
Definition _has_tool_use (response : Response) : bool :=
  String.eqb (stop_reason response) "tool_use"
  && existsb is_tool_use (content response).

(** The [for] loop of [_extract_text_response]. *)
Fixpoint first_text (blocks : list ContentBlock) : option string :=
  match blocks with
  | [] => None
  | TextBlock text :: _ => Some text
  | ToolUseBlock _ _ _ :: rest => first_text rest
  end.

(** [_extract_text_response] *)
Definition _extract_text_response (response : Response) : string :=
  match first_text (content response) with
  | Some text => text
  | None => NO_TEXT
  end.

(** [_handle_tool_error]: the [error] argument is not used. *)
Definition _handle_tool_error (error : string) (last_response : Response) : string :=
  let text_response := _extract_text_response last_response in
  if negb (String.eqb text_response EmptyString)
     && negb (String.eqb text_response NO_TEXT)
  then text_response
  else APOLOGY.

(** The body of the [try] block of [_execute_tools_for_response]: the loop
    over [response.content], with the [tool_results] collected so far. *)
Fixpoint execute_blocks (tool_manager : ToolManager)
    (blocks : list ContentBlock) (tool_results : list ToolResult)
    : M (list ToolResult * option string) :=
  match blocks with
  | [] => ret (tool_results, None)
  | TextBlock _ :: rest => execute_blocks tool_manager rest tool_results
  | ToolUseBlock name id input :: rest =>
      r <- try (execute_tool tool_manager name input) ;;
      match r with
      | Ok tool_result =>
          execute_blocks tool_manager rest
            (tool_results ++ [mkToolResult id tool_result])
      | Raise e => ret (tool_results, Some (str e))
      end
  end.

(** [_execute_tools_for_response] *)
Definition _execute_tools_for_response (response : Response)
    (tool_manager : ToolManager) : M (list ToolResult * option string) :=
  execute_blocks tool_manager (content response) [].

(** [_make_api_call] *)
Definition _make_api_call (self : AIGenerator) (messages : loc)
    (system_prompt : Value) (tools : option Value) : M Response :=
  api_params <- alloc (ODict (<["system" := system_prompt]>
                                (<["messages" := VList messages]>
                                   (base_params self)))) ;;
  t <- truthy_opt tools ;;
  (match tools with
   | Some v =>
       if t then
         dict_setitem api_params "tools" v ;;;
         dict_setitem api_params "tool_choice" (VChoice "auto")
       else ret tt
   | None => ret tt
   end) ;;;
  messages_create self api_params.

(** [if error:] on the second component returned by
    [_execute_tools_for_response]. *)
Definition error_truthy (error : option string) : bool :=
  match error with
  | Some msg => negb (String.eqb msg EmptyString)
  | None => false
  end.

(** The [for round_num in range(1, max_rounds + 1)] loop of
    [_handle_sequential_tool_execution], over the round numbers that
    remain, followed by the fallback after the loop. *)
Fixpoint rounds_loop (self : AIGenerator) (base_params : loc)
    (tool_manager : ToolManager) (max_rounds : Z) (rounds : list Z)
    (messages : loc) (current_response : Response) : M string :=
  match rounds with
  | [] => ret (_extract_text_response current_response)
  | round_num :: rest =>
      if negb (_has_tool_use current_response) then
        ret (_extract_text_response current_response)
      else
        list_append messages
          (mkMessage "assistant" (BlockContent (content current_response))) ;;;
        p <- _execute_tools_for_response current_response tool_manager ;;
        let '(tool_results, error) := p in
        if error_truthy error then
          ret (_handle_tool_error (default EmptyString error) current_response)
        else
          list_append messages
            (mkMessage "user" (ResultContent tool_results)) ;;;
          if round_num =? max_rounds then
            system <- dict_getitem base_params "system" ;;
            final_response <- _make_api_call self messages system None ;;
            ret (_extract_text_response final_response)
          else
            system <- dict_getitem base_params "system" ;;
            tools <- dict_get base_params "tools" ;;
            next_response <- _make_api_call self messages system tools ;;
            rounds_loop self base_params tool_manager max_rounds rest
              messages next_response
  end.

(** [_handle_sequential_tool_execution] *)
Definition _handle_sequential_tool_execution (self : AIGenerator)
    (initial_response : Response) (base_params : loc)
    (tool_manager : ToolManager) (max_rounds : Z) : M string :=
  src <- dict_getitem base_params "messages" ;;
  messages <- match src with
              | VList l => list_copy l
              | _ => raise (PyExn "AttributeError" "copy")
              end ;;
  rounds_loop self base_params tool_manager max_rounds
    (seqZ 1 max_rounds) messages initial_response.

(** [_handle_tool_execution], the legacy entry point. *)
Definition _handle_tool_execution (self : AIGenerator)
    (initial_response : Response) (base_params : loc)
    (tool_manager : ToolManager) : M string :=
  _handle_sequential_tool_execution self initial_response base_params
    tool_manager 1.

(** [response.content[0].text] *)
Definition content0_text (response : Response) : M string :=
  match content response with
  | [] => raise (PyExn "IndexError" "list index out of range")
  | TextBlock text :: _ => ret text
  | ToolUseBlock _ _ _ :: _ => raise (PyExn "AttributeError" "text")
  end.

(** The conditional expression that builds [system_content]. *)
Definition system_content (conversation_history : option string) : string :=
  match conversation_history with
  | Some h =>
      if String.eqb h EmptyString then SYSTEM_PROMPT
      else SYSTEM_PROMPT +:+ nl +:+ nl +:+ "Previous conversation:" +:+ nl +:+ h
  | None => SYSTEM_PROMPT
  end.

(** [if tools:] on the [tools] argument of [generate_response]: [None] and
    the empty list are falsy. *)
Definition catalog_truthy (tools : option (list ToolDef)) : bool :=
  match tools with
  | Some ts => negb (Nat.eqb (length ts) 0)
  | None => false
  end.

(** [generate_response] *)
Definition generate_response (self : AIGenerator) (query : string)
    (conversation_history : option string) (tools : option (list ToolDef))
    (tool_manager : option ToolManager) : M string :=
  let system_content := system_content conversation_history in
  messages <- alloc (OList [mkMessage "user" (TextContent query)]) ;;
  api_params <- alloc (ODict (<["system" := VStr system_content]>
                                (<["messages" := VList messages]>
                                   (base_params self)))) ;;
  (match tools with
   | Some ts =>
       if catalog_truthy tools then
         dict_setitem api_params "tools" (VTools ts) ;;;
         dict_setitem api_params "tool_choice" (VChoice "auto")
       else ret tt
   | None => ret tt
   end) ;;;
  response <- messages_create self api_params ;;
  match tool_manager with
  | Some tm =>
      if String.eqb (stop_reason response) "tool_use" then
        _handle_sequential_tool_execution self response api_params tm 2
      else content0_text response
  | None => content0_text response
  end.

(** * Observations on traces *)

Definition is_api (e : Event) : bool :=
  match e with EvApi _ _ => true | EvTool _ _ _ => false end.

Definition is_tool (e : Event) : bool :=
  match e with EvApi _ _ => false | EvTool _ _ _ => true end.

(** Number of model calls recorded in a trace. *)
Fixpoint api_calls (tr : list Event) : nat :=
  match tr with
  | [] => 0
  | EvApi _ _ :: tr' => S (api_calls tr')
  | EvTool _ _ _ :: tr' => api_calls tr'
  end.

(** Number of individual tool dispatches recorded in a trace. *)
Fixpoint tool_dispatches (tr : list Event) : nat :=
  match tr with
  | [] => 0
  | EvApi _ _ :: tr' => tool_dispatches tr'
  | EvTool _ _ _ :: tr' => S (tool_dispatches tr')
  end.

(** Number of tool-dispatch rounds: maximal runs of consecutive dispatches
    (a model call separates two rounds).  [in_round] tells whether the
    event before [tr] was a dispatch. *)
Fixpoint tool_rounds_from (in_round : bool) (tr : list Event) : nat :=
  match tr with
  | [] => 0
  | EvApi _ _ :: tr' => tool_rounds_from false tr'
  | EvTool _ _ _ :: tr' =>
      ((if in_round then 0 else 1) + tool_rounds_from true tr')%nat
  end.

Definition tool_rounds (tr : list Event) : nat := tool_rounds_from false tr.

(** The tool-invocation blocks of a reply, in the order listed:
    name, invocation id, arguments. *)
Fixpoint tool_uses (blocks : list ContentBlock)
    : list (string * string * kwargs) :=
  match blocks with
  | [] => []
  | TextBlock _ :: rest => tool_uses rest
  | ToolUseBlock name id input :: rest => (name, id, input) :: tool_uses rest
  end.

(** The dispatch event of an invocation that returned [out], and the
    result entry built from it. *)
Definition dispatch_event (u : string * string * kwargs) (out : string) : Event :=
  EvTool u.1.1 u.2 (Ok out).

Definition result_entry (u : string * string * kwargs) (out : string) : ToolResult :=
  mkToolResult u.1.2 out.

(** * Specification vocabulary *)

(** Postconditions of a computation run from a world: [Q] holds of the
    outcome and of the world it leaves. *)
Definition wp {A} (m : M A) (w : World) (Q : result A -> World -> Prop) : Prop :=
  Q (m w).1 (m w).2.

Arguments wp : simpl never.

(** [dispatches tm tr blocks acc out evs]: starting with history [tr] and
    the results [acc] collected so far, walking [blocks] records the
    events [evs] and ends with outcome [out]. *)
Inductive dispatches (tm : ToolManager)
  : list Event -> list ContentBlock -> list ToolResult ->
    list ToolResult * option string -> list Event -> Prop :=
| dispatches_nil tr acc :
    dispatches tm tr [] acc (acc, None) []
| dispatches_text tr text rest acc out evs :
    dispatches tm tr rest acc out evs ->
    dispatches tm tr (TextBlock text :: rest) acc out evs
| dispatches_ok tr name id input rest acc s out evs :
    tm tr name input = Ok s ->
    dispatches tm (tr ++ [EvTool name input (Ok s)]) rest
      (acc ++ [mkToolResult id s]) out evs ->
    dispatches tm tr (ToolUseBlock name id input :: rest) acc out
      (EvTool name input (Ok s) :: evs)
| dispatches_raise tr name id input rest acc e :
    tm tr name input = Raise e ->
    is_Exception e = true ->
    dispatches tm tr (ToolUseBlock name id input :: rest) acc
      (acc, Some (str e)) [EvTool name input (Raise e)].

(** [dispatch_escapes tm tr blocks e evs]: walking [blocks] from history
    [tr] records the events [evs] and ends with a dispatch that raises
    [e], which the [except Exception] clause does not catch. *)
Inductive dispatch_escapes (tm : ToolManager)
  : list Event -> list ContentBlock -> exn -> list Event -> Prop :=
| dispatch_escapes_text tr text rest e evs :
    dispatch_escapes tm tr rest e evs ->
    dispatch_escapes tm tr (TextBlock text :: rest) e evs
| dispatch_escapes_ok tr name id input rest s e evs :
    tm tr name input = Ok s ->
    dispatch_escapes tm (tr ++ [EvTool name input (Ok s)]) rest e evs ->
    dispatch_escapes tm tr (ToolUseBlock name id input :: rest) e
      (EvTool name input (Ok s) :: evs)
| dispatch_escapes_here tr name id input rest e :
    tm tr name input = Raise e ->
    is_Exception e = false ->
    dispatch_escapes tm tr (ToolUseBlock name id input :: rest) e
      [EvTool name input (Raise e)].

(** The dictionary [_make_api_call] starts from. *)
Definition plain_params (self : AIGenerator) (messages : loc)
    (system_prompt : Value) : gmap string Value :=
  <["system" := system_prompt]>
    (<["messages" := VList messages]> (base_params self)).

(** The two assignments made when the catalog is truthy. *)
Definition with_tools (v : Value) (d : gmap string Value) : gmap string Value :=
  <["tool_choice" := VChoice "auto"]> (<["tools" := v]> d).

(** A request dictionary offers catalog [v] with automatic tool choice. *)
Definition offers (d : gmap string Value) (v : Value) : Prop :=
  d !! "tools" = Some v /\ d !! "tool_choice" = Some (VChoice "auto").

(** A request dictionary carries neither field. *)
Definition offers_nothing (d : gmap string Value) : Prop :=
  d !! "tools" = None /\ d !! "tool_choice" = None.

(** What every event of a query satisfies: a model call carries the
    query's system value and either the query's catalog with automatic
    choice or no catalog at all. *)
Definition event_ok (sys tools : option Value) (e : Event) : Prop :=
  match e with
  | EvApi req _ =>
      req_params req !! "system" = sys
      /\ (offers_nothing (req_params req)
          \/ exists v, tools = Some v /\ offers (req_params req) v)
  | EvTool _ _ _ => True
  end.

(** What a run that started with trace [tr] leaves behind: the objects of
    [h0] untouched, and new events that all satisfy [event_ok], with at
    most [na] model calls and at most [nr] dispatch rounds among them. *)
Definition run_post {A} (h0 : gmap loc Object) (sys tools : option Value)
    (na nr : nat) (tr : list Event) : result A -> World -> Prop :=
  fun _ w' =>
    h0 ⊆ heap w'
    /\ exists evs,
         trace w' = tr ++ evs
         /\ Forall (event_ok sys tools) evs
         /\ (api_calls evs <= na)%nat
         /\ (tool_rounds evs <= nr)%nat.

(** The value [generate_response] stores under ["tools"], if any. *)
Definition catalog_value (tools : option (list ToolDef)) : option Value :=
  match tools with
  | Some ts => if catalog_truthy tools then Some (VTools ts) else None
  | None => None
  end.

(** The request dictionary [generate_response] has built when it calls
    the model. *)
Definition initial_params (self : AIGenerator) (messages : loc)
    (conversation_history : option string) (tools : option (list ToolDef))
    : gmap string Value :=
  match catalog_value tools with
  | Some v =>
      with_tools v
        (plain_params self messages (VStr (system_content conversation_history)))
  | None =>
      plain_params self messages (VStr (system_content conversation_history))
  end.

(** The state the round loop relies on: [base_params] is a dictionary
    with a system value and no list reference under ["tools"], and
    [messages] is the private transcript [ms]. *)
Definition loop_ready (bp messages : loc) (d : gmap string Value)
    (sys : Value) (ms : list Message) (w : World) : Prop :=
  heap w !! bp = Some (ODict d)
  /\ d !! "system" = Some sys
  /\ heap w !! messages = Some (OList ms)
  /\ forall l, d !! "tools" <> Some (VList l).

(** The two turns a round appends. *)
Definition assistant_turn (response : Response) : Message :=
  mkMessage "assistant" (BlockContent (content response)).

Definition tool_result_turn (results : list ToolResult) : Message :=
  mkMessage "user" (ResultContent results).

(** How [_make_api_call] settles the request dictionary for a catalog
    argument [tools]. *)
Definition built_from (self : AIGenerator) (messages : loc) (sys : Value)
    (tools : option Value) (d : gmap string Value) : Prop :=
  d = plain_params self messages sys
    /\ (forall ts, tools = Some (VTools ts) -> ts = [])
  \/ exists v, tools = Some v
       /\ d = with_tools v (plain_params self messages sys)
       /\ (forall ts, tools = Some (VTools ts) -> ts <> []).

(** * Concrete collaborators, for examples *)

Definition empty_world : World := mkWorld ∅ [].

Definition search_block : ContentBlock :=
  ToolUseBlock "search_course_content" "tool_1" [("query", AStr "Python")].

Definition outline_block : ContentBlock :=
  ToolUseBlock "get_course_outline" "tool_2"
    [("course_name", AStr "Python Basics")].

Definition demo_catalog : list ToolDef :=
  [mkToolDef "search_course_content" "Search course content";
   mkToolDef "get_course_outline" "Get course outline"].

(** A model that requests one tool in each of its first two replies and
    then answers in text. *)
Definition two_round_client : Client :=
  fun tr _ =>
    if (api_calls tr <? 2)%nat
    then Ok (mkResponse "tool_use" [search_block])
    else Ok (mkResponse "end_turn" [TextBlock "Final answer after 2 rounds"]).


(** A model that answers in text at once. *)
Definition text_client (text : string) : Client :=
  fun _ _ => Ok (mkResponse "end_turn" [TextBlock text]).

(** A model whose reply is always [response]. *)
Definition fixed_client (response : Response) : Client :=
  fun _ _ => Ok response.

Definition ok_tools : ToolManager := fun _ _ _ => Ok "Tool result".

(** A dispatcher whose every dispatch raises with message [msg]. *)
Definition failing_tools (msg : string) : ToolManager :=
  fun _ _ _ => Raise (PyExn "Exception" msg).

Definition demo_model : string := "claude-sonnet-4-20250514".

(** A model call carries system instructions [sys]; dispatches carry none. *)
Definition carries_system (sys : string) (e : Event) : Prop :=
  match e with
  | EvApi req _ => req_params req !! "system" = Some (VStr sys)
  | EvTool _ _ _ => True
  end.

(** The catalog is offered with automatic choice exactly when it is a
    non-empty list; otherwise the dictionary carries neither field. *)
Definition offers_catalog_iff (tools : option (list ToolDef))
    (d : gmap string Value) : Prop :=
  match tools with
  | Some (t :: ts) => offers d (VTools (t :: ts))
  | _ => offers_nothing d
  end.

(** The user turn [generate_response] starts the transcript with. *)
Definition user_turn (query : string) : Message :=
  mkMessage "user" (TextContent query).

(** What every run of [generate_response] from [w] leaves behind: the
    objects of [w] untouched, and a trace extended by one model call on
    the one-turn transcript followed by events within the round budget. *)
Definition query_post (self : AIGenerator) (query : string)
    (history : option string) (tools : option (list ToolDef)) (w : World)
    : result string -> World -> Prop :=
  fun _ w' =>
    heap w ⊆ heap w'
    /\ exists messages evs,
         let req := mkRequest (initial_params self messages history tools)
                      [user_turn query] in
         let res := client self (trace w) req in
         trace w' = trace w ++ EvApi req res :: evs
         /\ Forall (event_ok (Some (VStr (system_content history)))
                      (catalog_value tools)) (EvApi req res :: evs)
         /\ (api_calls evs <= 2)%nat
         /\ (tool_rounds evs <= 2)%nat.

(** A heap as the caller of [_handle_sequential_tool_execution] has it:
    the transcript at location 0 and the request dictionary at 1. *)
Definition caller_world : World :=
  mkWorld
    (<[1%nat := ODict (plain_params (mkAIGenerator two_round_client demo_model)
                         0%nat (VStr SYSTEM_PROMPT))]>
       (<[0%nat := OList [user_turn "Complex query"]]> ∅))
    [].

(** The reply [_handle_tool_error] gives for a last reply, spelt out. *)
Definition error_reply (last_response : Response) : string :=
  match first_text (content last_response) with
  | Some text =>
      if String.eqb text EmptyString || String.eqb text NO_TEXT
      then APOLOGY else text
  | None => APOLOGY
  end.

(** The first text block of a reply, told by position and not by the loop
    of [_extract_text_response]: [Some text] when a block [TextBlock text]
    stands in [blocks] with no text block before it, [None] when [blocks]
    holds no text block at all. *)
Definition no_text_block (blocks : list ContentBlock) : Prop :=
  forall text, TextBlock text ∉ blocks.

Definition first_text_block (blocks : list ContentBlock)
    (found : option string) : Prop :=
  match found with
  | Some text =>
      exists before after,
        blocks = before ++ TextBlock text :: after /\ no_text_block before
  | None => no_text_block blocks
  end.

(** Substring test. *)
Fixpoint contains (needle haystack : string) : bool :=
  String.prefix needle haystack
  || match haystack with
     | EmptyString => false
     | String _ rest => contains needle rest
     end.

(** * The search capability *)

Module SearchCapability.

(** Modelled from the spec: the Search Capability ([CourseSearchTool] in
    [search_tools.py]) and the retrieval collaborator's result type
    ([SearchResults] in [vector_store.py]) are not among the sources;
    only [tests/test_course_search_tool.py] is.  The definitions follow
    section 4.2 of the specification, with the names the tests use.  The
    collaborator's distances play no part in the capability and are left
    out.  Where the specification leaves the layout of a non-empty result
    open, a header and its passage are put on consecutive lines and the
    entries are set apart by a blank line. *)
Record Metadata := mkMetadata {
  course_title : option string;
  lesson_number : option Z
}.

Record SearchResults := mkSearchResults {
  documents : list string;
  metadata : list Metadata;
  error : option string
}.

Record VectorStore := mkVectorStore {
  search : string -> option string -> option Z -> SearchResults;
  get_lesson_link : string -> Z -> option string
}.

Record Source := mkSource {
  text : string;
  url : option string
}.

(** The message of the empty outcome names the filters that were active. *)
Definition no_results_message (course_name : option string)
    (lesson : option Z) : string :=
  "No relevant content found"
  +:+ match course_name with
      | Some c => " in course '" +:+ c +:+ "'"
      | None => EmptyString
      end
  +:+ match lesson with
      | Some n => " in lesson " +:+ pretty n
      | None => EmptyString
      end
  +:+ ".".

(** The header of a passage, without brackets. *)
Definition header (m : Metadata) : string :=
  default "unknown" (course_title m)
  +:+ match lesson_number m with
      | Some n => " - Lesson " +:+ pretty n
      | None => EmptyString
      end.

Definition format_passage (p : string * Metadata) : string :=
  "[" +:+ header p.2 +:+ "]" +:+ nl +:+ p.1.

Definition source_of (store : VectorStore) (p : string * Metadata) : Source :=
  mkSource (header p.2)
    (match course_title p.2, lesson_number p.2 with
     | Some c, Some n => get_lesson_link store c n
     | _, _ => None
     end).

(** [execute]: the textual result, and the sources that replace the
    capability's [last_sources]. *)
Definition execute (store : VectorStore) (query : string)
    (course_name : option string) (lesson : option Z)
    : string * list Source :=
  let results := search store query course_name lesson in
  match error results with
  | Some msg => (msg, [])
  | None =>
      match documents results with
      | [] => (no_results_message course_name lesson, [])
      | _ :: _ =>
          let passages := zip (documents results) (metadata results) in
          (String.concat (nl +:+ nl) (format_passage <$> passages),
           source_of store <$> passages)
      end
  end.

(** A collaborator that finds nothing. *)
Definition empty_store : VectorStore :=
  mkVectorStore (fun _ _ _ => mkSearchResults [] [] None) (fun _ _ => None).

End SearchCapability.

(** A model that requests one tool in its first reply and then answers
    in text. *)
Definition one_round_client : Client :=
  fun tr _ =>
    if (api_calls tr =? 0)%nat
    then Ok (mkResponse "tool_use" [search_block])
    else Ok (mkResponse "end_turn" [TextBlock "Python is a programming language."]).

(** * The HTTP endpoint of [backend/app.py] *)

Module App.

(** [request.query] is a Python [str], a sequence of Unicode code points:
    [len] counts code points, and [strip] removes from both ends the
    code points that [str.isspace] accepts.  Session ids, answers and
    exception messages are only tested for emptiness, copied, and
    searched for words of lower-case ASCII letters after [lower]; they
    are kept as [string]s of their UTF-8 bytes, on which [lower] moves
    the letters A to Z.  No other character lowers to a letter of
    "database" or "chroma", so both searches come out as in Python.
    [print] calls and the traceback are logging only and are left
    out. *)

Definition pystr := list N.


Record QueryRequest := mkQueryRequest {
  query : pystr;
  session_id : option string
}.

Record QueryResponse := mkQueryResponse {
  answer : string;
  sources : list string;
  response_session_id : string
}.

(** What a call can raise: an [HTTPException]; any other instance of
    [Exception], of which only [str(e)] matters; or an exception that is
    no instance of [Exception], such as [KeyboardInterrupt]. *)
Inductive Thrown :=
| ThrownHTTP (status_code : Z) (detail : string)
| ThrownOther (msg : string)
| ThrownBase (cls : string) (msg : string).

(** [rag_system], as far as the endpoint uses it:
    [session_manager.create_session()] and [query(query, session_id)]. *)
Record RagSystem := mkRagSystem {
  create_session : string + Thrown;
  rag_query : pystr -> string -> (string * list string) + Thrown
}.

(** What the endpoint gives back to the framework: a response, an
    [HTTPException], or an exception neither handler catches. *)
Inductive Outcome :=
| Returned (response : QueryResponse)
| HTTPException (status_code : Z) (detail : string)
| Propagated (cls : string) (msg : string).

(** The code points [str.isspace] accepts, and [str.strip] removes:
    U+0009 to U+000D, U+001C to U+0020, U+0085, U+00A0, U+1680, U+2000 to
    U+200A, U+2028, U+2029, U+202F, U+205F and U+3000. *)
Definition is_space (c : N) : bool :=
  ((9 <=? c) && (c <=? 13) || (28 <=? c) && (c <=? 32)
   || (c =? 133) || (c =? 160) || (c =? 5760)
   || (8192 <=? c) && (c <=? 8202)
   || (c =? 8232) || (c =? 8233) || (c =? 8239) || (c =? 8287)
   || (c =? 12288))%N.

Fixpoint lstrip (s : pystr) : pystr :=
  match s with
  | [] => []
  | c :: rest => if is_space c then lstrip rest else s
  end.

Fixpoint rstrip (s : pystr) : pystr :=
  match s with
  | [] => []
  | c :: rest =>
      match rstrip rest with
      | [] => if is_space c then [] else [c]
      | rest' => c :: rest'
      end
  end.

(** [s.strip()] *)
Definition strip (s : pystr) : pystr := rstrip (lstrip s).

(** [not s], for a [str]. *)
Definition falsy (s : pystr) : bool :=
  match s with [] => true | _ :: _ => false end.

Definition lower_char (c : ascii) : ascii :=
  let n := nat_of_ascii c in
  if ((65 <=? n) && (n <=? 90))%nat then ascii_of_nat (n + 32) else c.

(** [s.lower()] *)
Fixpoint lower (s : string) : string :=
  match s with
  | EmptyString => EmptyString
  | String c rest => String (lower_char c) (lower rest)
  end.

Definition is_empty (s : string) : bool :=
  match s with EmptyString => true | String _ _ => false end.

(** The body of the [try] block of [query_documents]. *)
Definition try_block (rag : RagSystem) (request : QueryRequest)
    : QueryResponse + Thrown :=
  if falsy (query request) || falsy (strip (query request)) then
    inr (ThrownHTTP 400 "Query cannot be empty")
  else if 5000 <? Z.of_nat (length (query request)) then
    inr (ThrownHTTP 400 "Query too long (max 5000 characters)")
  else
    match
      (match session_id request with
       | Some s => if is_empty s then create_session rag else inl s
       | None => create_session rag
       end)
    with
    | inr t => inr t
    | inl sid =>
        match rag_query rag (query request) sid with
        | inr t => inr t
        | inl (answer, sources) => inl (mkQueryResponse answer sources sid)
        end
    end.

(** [query_documents]: the [try] block and its two handlers,
    [except HTTPException] and [except Exception]. *)
Definition query_documents (rag : RagSystem) (request : QueryRequest)
    : Outcome :=
  match try_block rag request with
  | inl response => Returned response
  | inr (ThrownHTTP status_code detail) => HTTPException status_code detail
  | inr (ThrownOther msg) =>
      if contains "API key" (lower msg) then
        HTTPException 503
          "AI service is not available. Please check configuration."
      else if contains "database" (lower msg) || contains "chroma" (lower msg)
      then HTTPException 503 "Database service is not available."
      else HTTPException 500 ("Query processing failed: " +:+ msg)
  | inr (ThrownBase cls msg) => Propagated cls msg
  end.


(** A RAG system that answers every query. *)
Definition echo_rag : RagSystem :=
  mkRagSystem (inl "session_1")
    (fun q sid => inl ("Python is a programming language.",
                       ["Python Basics - Lesson 1"])).


End App.

(** * The round loop as a transition system *)

(** [loop_run rounds ms current tr r evs]: from the transcript [ms], the
    reply [current] and the history [tr], the rounds that remain record
    the events [evs] and end with outcome [r].  One constructor for each
    way an iteration can go. *)
Inductive loop_run (self : AIGenerator) (tm : ToolManager) (max_rounds : Z)
    (messages : loc) (sys : Value) (tools : option Value)
  : list Z -> list Message -> Response -> list Event ->
    result string -> list Event -> Prop :=
| loop_run_exhausted ms current tr :
    loop_run self tm max_rounds messages sys tools [] ms current tr
      (Ok (_extract_text_response current)) []
| loop_run_text round_num rest ms current tr :
    _has_tool_use current = false ->
    loop_run self tm max_rounds messages sys tools (round_num :: rest) ms
      current tr (Ok (_extract_text_response current)) []
| loop_run_error round_num rest ms current tr results error evs :
    _has_tool_use current = true ->
    dispatches tm tr (content current) [] (results, error) evs ->
    error_truthy error = true ->
    loop_run self tm max_rounds messages sys tools (round_num :: rest) ms
      current tr
      (Ok (_handle_tool_error (default EmptyString error) current)) evs
| loop_run_escape round_num rest ms current tr e evs :
    _has_tool_use current = true ->
    dispatch_escapes tm tr (content current) e evs ->
    loop_run self tm max_rounds messages sys tools (round_num :: rest) ms
      current tr (Raise e) evs
| loop_run_final round_num rest ms current tr results error evs d resp :
    _has_tool_use current = true ->
    dispatches tm tr (content current) [] (results, error) evs ->
    error_truthy error = false ->
    (round_num =? max_rounds) = true ->
    built_from self messages sys None d ->
    client self (tr ++ evs)
      (mkRequest d (ms ++ [assistant_turn current; tool_result_turn results]))
    = Ok resp ->
    loop_run self tm max_rounds messages sys tools (round_num :: rest) ms
      current tr (Ok (_extract_text_response resp))
      (evs ++ [EvApi (mkRequest d (ms ++ [assistant_turn current;
                                          tool_result_turn results]))
                 (Ok resp)])
| loop_run_raise round_num rest ms current tr results error evs d e :
    _has_tool_use current = true ->
    dispatches tm tr (content current) [] (results, error) evs ->
    error_truthy error = false ->
    built_from self messages sys
      (if round_num =? max_rounds then None else tools) d ->
    client self (tr ++ evs)
      (mkRequest d (ms ++ [assistant_turn current; tool_result_turn results]))
    = Raise e ->
    loop_run self tm max_rounds messages sys tools (round_num :: rest) ms
      current tr (Raise e)
      (evs ++ [EvApi (mkRequest d (ms ++ [assistant_turn current;
                                          tool_result_turn results]))
                 (Raise e)])
| loop_run_next round_num rest ms current tr results error evs d resp r evs' :
    _has_tool_use current = true ->
    dispatches tm tr (content current) [] (results, error) evs ->
    error_truthy error = false ->
    (round_num =? max_rounds) = false ->
    built_from self messages sys tools d ->
    client self (tr ++ evs)
      (mkRequest d (ms ++ [assistant_turn current; tool_result_turn results]))
    = Ok resp ->
    loop_run self tm max_rounds messages sys tools rest
      (ms ++ [assistant_turn current; tool_result_turn results]) resp
      (tr ++ evs
       ++ [EvApi (mkRequest d (ms ++ [assistant_turn current;
                                      tool_result_turn results]))
             (Ok resp)])
      r evs' ->
    loop_run self tm max_rounds messages sys tools (round_num :: rest) ms
      current tr r
      (evs ++ EvApi (mkRequest d (ms ++ [assistant_turn current;
                                         tool_result_turn results]))
                (Ok resp) :: evs').

(** The outcome of [response.content[0].text]. *)
Definition content0_result (response : Response) : result string :=
  match content response with
  | [] => Raise (PyExn "IndexError" "list index out of range")
  | TextBlock text :: _ => Ok text
  | ToolUseBlock _ _ _ :: _ => Raise (PyExn "AttributeError" "text")
  end.

(** [query_run tr r evs]: a whole query, from history [tr]. *)
Inductive query_run (self : AIGenerator) (query : string)
    (history : option string) (tools : option (list ToolDef))
    (tm : option ToolManager) (tr : list Event)
  : result string -> list Event -> Prop :=
| query_run_raise messages e :
    client self tr
      (mkRequest (initial_params self messages history tools) [user_turn query])
    = Raise e ->
    query_run self query history tools tm tr (Raise e)
      [EvApi (mkRequest (initial_params self messages history tools)
                [user_turn query]) (Raise e)]
| query_run_direct messages resp :
    client self tr
      (mkRequest (initial_params self messages history tools) [user_turn query])
    = Ok resp ->
    tm = None \/ String.eqb (stop_reason resp) "tool_use" = false ->
    query_run self query history tools tm tr (content0_result resp)
      [EvApi (mkRequest (initial_params self messages history tools)
                [user_turn query]) (Ok resp)]
| query_run_rounds messages messages' resp dispatcher r evs :
    client self tr
      (mkRequest (initial_params self messages history tools) [user_turn query])
    = Ok resp ->
    tm = Some dispatcher ->
    String.eqb (stop_reason resp) "tool_use" = true ->
    loop_run self dispatcher 2 messages' (VStr (system_content history))
      (catalog_value tools) (seqZ 1 2) [user_turn query] resp
      (tr ++ [EvApi (mkRequest (initial_params self messages history tools)
                       [user_turn query]) (Ok resp)])
      r evs ->
    query_run self query history tools tm tr r
      (EvApi (mkRequest (initial_params self messages history tools)
                [user_turn query]) (Ok resp) :: evs).

(** Turns appended by rounds: an assistant turn and a tool-result turn
    for each. *)
Inductive round_turns : list Message -> Prop :=
| round_turns_nil : round_turns []
| round_turns_cons blocks results rest :
    round_turns rest ->
    round_turns (mkMessage "assistant" (BlockContent blocks)
                 :: mkMessage "user" (ResultContent results) :: rest).

(** What every request of a query carries. *)
Definition request_well_formed (self : AIGenerator) (query : string)
    (history : option string) (req : Request) : Prop :=
  req_params req !! "model" = Some (VStr (model self))
  /\ req_params req !! "temperature" = Some (VInt 0)
  /\ req_params req !! "max_tokens" = Some (VInt 800)
  /\ req_params req !! "system" = Some (VStr (system_content history))
  /\ exists turns,
       req_messages req = mkMessage "user" (TextContent query) :: turns
       /\ round_turns turns.

Definition event_well_formed (self : AIGenerator) (query : string)
    (history : option string) (e : Event) : Prop :=
  match e with
  | EvApi req _ => request_well_formed self query history req
  | EvTool _ _ _ => True
  end.

(** A dispatcher interrupted from the keyboard. *)
Definition interrupted_tools : ToolManager :=
  fun _ _ _ => Raise (PyBaseExn "KeyboardInterrupt" EmptyString).

(** A model that cannot be reached. *)
Definition raising_client : Client :=
  fun _ _ => Raise (PyExn "APIConnectionError" "Connection error.").

(** A dispatch was requested by [response]: it carries the name and the
    arguments of one of its invocation blocks. *)
Definition requested_by (response : Response) (e : Event) : Prop :=
  match e with
  | EvTool name input _ =>
      exists id, (name, id, input) ∈ tool_uses (content response)
  | EvApi _ _ => False
  end.

(** Every dispatch among [evs] was requested by [current] or by a reply
    recorded earlier in [evs]. *)
Fixpoint all_requested (current : Response) (evs : list Event) : Prop :=
  match evs with
  | [] => True
  | EvApi _ (Ok resp) :: rest => all_requested resp rest
  | EvApi _ (Raise _) :: rest => Forall (fun e => is_api e = true) rest
  | EvTool name input res :: rest =>
      requested_by current (EvTool name input res) /\ all_requested current rest
  end.

(** The catalog along the model calls of one query, [calls] of which were
    made before [evs]: a call made before round [max_rounds] is over
    offers the supplied catalog exactly when it is a non-empty list; the
    call after that round, the forced final call, offers nothing. *)
Fixpoint catalog_policy (tools : option (list ToolDef)) (max_rounds : Z)
    (calls : nat) (evs : list Event) : Prop :=
  match evs with
  | [] => True
  | EvApi req _ :: rest =>
      (if Z.of_nat calls <? max_rounds
       then offers_catalog_iff tools (req_params req)
       else offers_nothing (req_params req))
      /\ catalog_policy tools max_rounds (S calls) rest
  | EvTool _ _ _ :: rest => catalog_policy tools max_rounds calls rest
  end.

(** * Reasoning principles for the monad *)

Lemma wp_ret {A} (a : A) w Q : Q (Ok a) w -> wp (ret a) w Q.
Proof. done. Qed.

Lemma wp_raise {A} (e : exn) w (Q : result A -> World -> Prop) :
  Q (Raise e) w -> wp (raise e) w Q.
Proof. done. Qed.

Lemma wp_bind {A B} (m : M A) (f : A -> M B) w Q :
  wp m w (fun r w' =>
            match r with
            | Ok a => wp (f a) w' Q
            | Raise e => Q (Raise e) w'
            end) ->
  wp (bind m f) w Q.
Proof. unfold wp, bind. by destruct (m w) as [[a|e] w']. Qed.

Lemma wp_mono {A} (m : M A) w (Q Q' : result A -> World -> Prop) :
  wp m w Q -> (forall r w', Q r w' -> Q' r w') -> wp m w Q'.
Proof. unfold wp. auto. Qed.

Lemma wp_run {A} (m : M A) w Q :
  wp m w Q -> exists r w', m w = (r, w') /\ Q r w'.
Proof. unfold wp. destruct (m w) as [r w']. eauto. Qed.

Lemma wp_intro {A} (m : M A) w r w' (Q : result A -> World -> Prop) :
  m w = (r, w') -> Q r w' -> wp m w Q.
Proof. unfold wp. by intros ->. Qed.

Lemma wp_try {A} (m : M A) w Q :
  wp m w (fun r w' =>
            match r with
            | Ok a => Q (Ok (Ok a)) w'
            | Raise e =>
                if is_Exception e then Q (Ok (Raise e)) w' else Q (Raise e) w'
            end) ->
  wp (try m) w Q.
Proof.
  unfold wp, try. destruct (m w) as [[a|e] w']; [done|].
  simpl. by destruct (is_Exception e).
Qed.

Lemma wp_alloc o w Q :
  (forall l, heap w !! l = None ->
             Q (Ok l) (mkWorld (<[l := o]> (heap w)) (trace w))) ->
  wp (alloc o) w Q.
Proof.
  intros H. unfold wp, alloc. simpl. apply H.
  apply not_elem_of_dom, is_fresh.
Qed.

Lemma wp_store l o w Q :
  Q (Ok tt) (mkWorld (<[l := o]> (heap w)) (trace w)) -> wp (store l o) w Q.
Proof. done. Qed.

Lemma wp_list_obj l w Q :
  (forall ms, heap w !! l = Some (OList ms) -> Q (Ok ms) w) ->
  ((forall ms, heap w !! l <> Some (OList ms)) -> forall e, Q (Raise e) w) ->
  wp (list_obj l) w Q.
Proof.
  intros Hok Herr. unfold wp, list_obj.
  destruct (heap w !! l) as [[ms|d]|] eqn:E; simpl; auto.
Qed.

Lemma wp_dict_obj l w Q :
  (forall d, heap w !! l = Some (ODict d) -> Q (Ok d) w) ->
  ((forall d, heap w !! l <> Some (ODict d)) -> forall e, Q (Raise e) w) ->
  wp (dict_obj l) w Q.
Proof.
  intros Hok Herr. unfold wp, dict_obj.
  destruct (heap w !! l) as [[ms|d]|] eqn:E; simpl; auto.
Qed.

Lemma wp_list_copy l w Q :
  (forall ms l', heap w !! l = Some (OList ms) -> heap w !! l' = None ->
     Q (Ok l') (mkWorld (<[l' := OList ms]> (heap w)) (trace w))) ->
  ((forall ms, heap w !! l <> Some (OList ms)) -> forall e, Q (Raise e) w) ->
  wp (list_copy l) w Q.
Proof.
  intros Hok Herr. unfold list_copy. apply wp_bind, wp_list_obj; [|auto].
  intros ms Hl. apply wp_alloc. eauto.
Qed.

Lemma wp_list_append l m w Q :
  (forall ms, heap w !! l = Some (OList ms) ->
     Q (Ok tt) (mkWorld (<[l := OList (ms ++ [m])]> (heap w)) (trace w))) ->
  ((forall ms, heap w !! l <> Some (OList ms)) -> forall e, Q (Raise e) w) ->
  wp (list_append l m) w Q.
Proof.
  intros Hok Herr. unfold list_append. apply wp_bind, wp_list_obj; [|auto].
  intros ms Hl. apply wp_store. eauto.
Qed.

Lemma wp_dict_getitem d k w Q :
  (forall m v, heap w !! d = Some (ODict m) -> m !! k = Some v -> Q (Ok v) w) ->
  ((forall m v, heap w !! d = Some (ODict m) -> m !! k <> Some v) ->
     forall e, Q (Raise e) w) ->
  wp (dict_getitem d k) w Q.
Proof.
  intros Hok Herr. unfold dict_getitem. apply wp_bind, wp_dict_obj.
  - intros m Hd. destruct (m !! k) as [v|] eqn:E.
    + apply wp_ret. eauto.
    + apply wp_raise, Herr. intros m' v Hd'. congruence.
  - intros Hno e. apply Herr. intros m v Hd. by destruct (Hno m).
Qed.

Lemma wp_dict_get d k w Q :
  (forall m, heap w !! d = Some (ODict m) -> Q (Ok (m !! k)) w) ->
  ((forall m, heap w !! d <> Some (ODict m)) -> forall e, Q (Raise e) w) ->
  wp (dict_get d k) w Q.
Proof.
  intros Hok Herr. unfold dict_get. apply wp_bind, wp_dict_obj; [|auto].
  intros m Hd. apply wp_ret. auto.
Qed.

Lemma wp_dict_setitem d k v w Q :
  (forall m, heap w !! d = Some (ODict m) ->
     Q (Ok tt) (mkWorld (<[d := ODict (<[k := v]> m)]> (heap w)) (trace w))) ->
  ((forall m, heap w !! d <> Some (ODict m)) -> forall e, Q (Raise e) w) ->
  wp (dict_setitem d k v) w Q.
Proof.
  intros Hok Herr. unfold dict_setitem. apply wp_bind, wp_dict_obj; [|auto].
  intros m Hd. apply wp_store. auto.
Qed.

Lemma wp_execute_tool tm name input w Q :
  Q (tm (trace w) name input)
    (mkWorld (heap w) (trace w ++ [EvTool name input (tm (trace w) name input)])) ->
  wp (execute_tool tm name input) w Q.
Proof. done. Qed.

Lemma wp_messages_create self p w Q :
  (forall d l ms,
     heap w !! p = Some (ODict d) -> d !! "messages" = Some (VList l) ->
     heap w !! l = Some (OList ms) ->
     let req := mkRequest d ms in
     Q (client self (trace w) req)
       (mkWorld (heap w) (trace w ++ [EvApi req (client self (trace w) req)]))) ->
  ((forall d l ms, heap w !! p = Some (ODict d) ->
      d !! "messages" = Some (VList l) -> heap w !! l <> Some (OList ms)) ->
     forall e, Q (Raise e) w) ->
  wp (messages_create self p) w Q.
Proof.
  intros Hok Herr. unfold messages_create. apply wp_bind, wp_dict_obj.
  - intros d Hd. apply wp_bind.
    destruct (d !! "messages") as [[s|z|l|ts|c]|] eqn:E;
      try (apply wp_raise, Herr; intros d' l' ms' Hd' Hm'; congruence).
    apply wp_list_obj.
    + intros ms Hl. unfold wp. simpl. by eapply Hok.
    + intros Hno e. apply Herr. intros d' l' ms' Hd' Hm'.
      assert (d' = d) as -> by congruence.
      assert (l' = l) as -> by congruence. apply Hno.
  - intros Hno e. apply Herr. intros d l ms Hd. by destruct (Hno d).
Qed.

(** * One round of dispatching *)

(** The loop over the blocks either returns, as [dispatches] says, or is
    left by an exception the handler does not catch, as
    [dispatch_escapes] says. *)
Lemma execute_blocks_dispatches tm blocks :
  forall acc w,
    (exists out evs,
       execute_blocks tm blocks acc w
         = (Ok out, mkWorld (heap w) (trace w ++ evs))
       /\ dispatches tm (trace w) blocks acc out evs)
    \/ (exists e evs,
          execute_blocks tm blocks acc w
            = (Raise e, mkWorld (heap w) (trace w ++ evs))
          /\ dispatch_escapes tm (trace w) blocks e evs).
Proof.
  induction blocks as [|[text|name id input] rest IH]; intros acc w.
  - left. exists (acc, None), []. rewrite app_nil_r. destruct w.
    split; [done|constructor].
  - destruct (IH acc w) as [(out & evs & Hrun & Hd)|(e & evs & Hrun & Hd)].
    + left. exists out, evs. split; [done|by constructor].
    + right. exists e, evs. split; [done|by constructor].
  - simpl. unfold bind, try, execute_tool. simpl.
    destruct (tm (trace w) name input) as [s|e] eqn:E.
    + destruct (IH (acc ++ [mkToolResult id s])
                  (mkWorld (heap w) (trace w ++ [EvTool name input (Ok s)])))
        as [(out & evs & Hrun & Hd)|(e & evs & Hrun & Hd)];
        simpl in Hrun, Hd; rewrite Hrun, <- app_assoc.
      * left. exists out, (EvTool name input (Ok s) :: evs).
        split; [done|by econstructor].
      * right. exists e, (EvTool name input (Ok s) :: evs).
        split; [done|by econstructor].
    + destruct (is_Exception e) eqn:Ee.
      * left. exists (acc, Some (str e)), [EvTool name input (Raise e)].
        split; [done|by constructor].
      * right. exists e, [EvTool name input (Raise e)].
        split; [done|by constructor].
Qed.

Lemma wp_execute_tools response tm w Q :
  (forall out evs,
     dispatches tm (trace w) (content response) [] out evs ->
     Q (Ok out) (mkWorld (heap w) (trace w ++ evs))) ->
  (forall e evs,
     dispatch_escapes tm (trace w) (content response) e evs ->
     Q (Raise e) (mkWorld (heap w) (trace w ++ evs))) ->
  wp (_execute_tools_for_response response tm) w Q.
Proof.
  intros H He. unfold _execute_tools_for_response.
  destruct (execute_blocks_dispatches tm (content response) [] w)
    as [(out & evs & Hrun & Hd)|(e & evs & Hrun & Hd)];
    eapply wp_intro; eauto.
Qed.

Lemma dispatches_deterministic tm tr blocks acc out evs out' evs' :
  dispatches tm tr blocks acc out evs ->
  dispatches tm tr blocks acc out' evs' ->
  out = out' /\ evs = evs'.
Proof.
  intros H. revert out' evs'.
  induction H; intros out' evs' H'; inversion H'; subst; try congruence; auto.
  - assert (s0 = s) as -> by congruence.
    destruct (IHdispatches _ _ ltac:(eassumption)) as [-> ->]. done.
  - assert (e0 = e) as -> by congruence. done.
Qed.

Lemma dispatches_all_tool tm tr blocks acc out evs :
  dispatches tm tr blocks acc out evs -> Forall (fun e => is_tool e = true) evs.
Proof. induction 1; repeat constructor; auto. Qed.

Lemma dispatch_escapes_all_tool tm tr blocks e evs :
  dispatch_escapes tm tr blocks e evs -> Forall (fun e => is_tool e = true) evs.
Proof. induction 1; repeat constructor; auto. Qed.

Lemma dispatch_escapes_nonempty tm tr blocks e evs :
  dispatch_escapes tm tr blocks e evs -> evs <> [].
Proof. induction 1; auto; discriminate. Qed.

(** A walk over the blocks does not both return and escape. *)
Lemma dispatches_not_escapes tm tr blocks acc out evs e evs' :
  dispatches tm tr blocks acc out evs ->
  dispatch_escapes tm tr blocks e evs' -> False.
Proof.
  intros H. revert e evs'.
  induction H; intros e' evs' H'; inversion H'; subst; try congruence; eauto.
  assert (s0 = s) as -> by congruence. eauto.
Qed.

(** The escaping exception is no instance of [Exception], and it is the
    outcome of the last dispatch recorded. *)
Lemma dispatch_escapes_last tm tr blocks e evs :
  dispatch_escapes tm tr blocks e evs ->
  is_Exception e = false
  /\ exists pre name id input post outs,
       blocks = pre ++ ToolUseBlock name id input :: post
       /\ length outs = length (tool_uses pre)
       /\ evs = zip_with dispatch_event (tool_uses pre) outs
                ++ [EvTool name input (Raise e)]
       /\ tm (tr ++ zip_with dispatch_event (tool_uses pre) outs) name input
          = Raise e.
Proof.
  induction 1 as [tr text rest e evs H IH|tr name id input rest s e evs Hs H IH
                 |tr name id input rest e He Hn].
  - destruct IH as (Hn & pre & n & i & inp & post & outs & -> & Hlen & -> & Htm).
    split; [done|].
    exists (TextBlock text :: pre), n, i, inp, post, outs. done.
  - destruct IH as (Hn & pre & n & i & inp & post & outs & -> & Hlen & -> & Htm).
    split; [done|].
    exists (ToolUseBlock name id input :: pre), n, i, inp, post, (s :: outs).
    simpl. rewrite Hlen. rewrite <- app_assoc in Htm. done.
  - split; [done|]. exists [], name, id, input, rest, []. simpl.
    rewrite app_nil_r. done.
Qed.

Lemma dispatches_nonempty tm tr blocks acc out evs :
  dispatches tm tr blocks acc out evs ->
  existsb is_tool_use blocks = true -> evs <> [].
Proof. induction 1; simpl; intros; auto; congruence. Qed.

(** A round without error dispatched every invocation block, in order,
    and collected one correlated entry per block. *)
Lemma dispatches_success tm tr blocks acc results evs :
  dispatches tm tr blocks acc (results, None) evs ->
  exists outs,
    length outs = length (tool_uses blocks)
    /\ evs = zip_with dispatch_event (tool_uses blocks) outs
    /\ results = acc ++ zip_with result_entry (tool_uses blocks) outs.
Proof.
  intros H. remember (results, None) as out eqn:Ho. revert results Ho.
  induction H; intros results Ho; simplify_eq.
  - exists []. by rewrite app_nil_r.
  - destruct (IHdispatches _ eq_refl) as (outs & Hlen & -> & ->). by exists outs.
  - destruct (IHdispatches _ eq_refl) as (outs & Hlen & -> & ->).
    exists (s :: outs). simpl. rewrite Hlen, <- app_assoc. done.
Qed.

(** A round with an error stopped at the first invocation that raised. *)
Lemma dispatches_failure tm tr blocks acc results msg evs :
  dispatches tm tr blocks acc (results, Some msg) evs ->
  exists pre name id input post outs e,
    blocks = pre ++ ToolUseBlock name id input :: post
    /\ length outs = length (tool_uses pre)
    /\ evs = zip_with dispatch_event (tool_uses pre) outs
             ++ [EvTool name input (Raise e)]
    /\ tm (tr ++ zip_with dispatch_event (tool_uses pre) outs) name input
       = Raise e
    /\ is_Exception e = true
    /\ msg = str e
    /\ results = acc ++ zip_with result_entry (tool_uses pre) outs.
Proof.
  intros H. remember (results, Some msg) as out eqn:Ho. revert results Ho.
  induction H; intros results Ho; simplify_eq.
  - destruct (IHdispatches _ eq_refl)
      as (pre & n & i & inp & post & outs & e & -> & Hlen & -> & Htm & He
          & -> & ->).
    exists (TextBlock text :: pre), n, i, inp, post, outs, e. done.
  - destruct (IHdispatches _ eq_refl)
      as (pre & n & i & inp & post & outs & e & -> & Hlen & -> & Htm & He
          & -> & ->).
    exists (ToolUseBlock name id input :: pre), n, i, inp, post, (s :: outs), e.
    simpl. rewrite Hlen, <- !app_assoc. rewrite <- app_assoc in Htm. done.
  - exists [], name, id, input, rest, [], e. simpl.
    rewrite !app_nil_r. done.
Qed.

(** Dispatching a prefix that succeeds and then an invocation that raises. *)
Lemma dispatches_prefix_raise tm tr pre name id input post acc results evs e :
  dispatches tm tr pre acc (results, None) evs ->
  tm (tr ++ evs) name input = Raise e ->
  is_Exception e = true ->
  dispatches tm tr (pre ++ ToolUseBlock name id input :: post) acc
    (results, Some (str e)) (evs ++ [EvTool name input (Raise e)]).
Proof.
  intros H. remember (results, None) as out eqn:Ho. revert results Ho.
  induction H; intros results Ho Htm He; simplify_eq; simpl.
  - rewrite app_nil_r in Htm. by constructor.
  - constructor. auto.
  - econstructor; [done|]. apply IHdispatches; [done| |done].
    by rewrite <- app_assoc.
Qed.

(** * Counting events *)

Lemma api_calls_app tr1 tr2 :
  api_calls (tr1 ++ tr2) = (api_calls tr1 + api_calls tr2)%nat.
Proof. induction tr1 as [|[]]; simpl; auto. Qed.

Lemma tool_dispatches_app tr1 tr2 :
  tool_dispatches (tr1 ++ tr2) = (tool_dispatches tr1 + tool_dispatches tr2)%nat.
Proof. induction tr1 as [|[]]; simpl; auto. Qed.

Lemma api_calls_tools evs :
  Forall (fun e => is_tool e = true) evs -> api_calls evs = 0%nat.
Proof. induction 1 as [|[] ? ? ?]; simpl in *; auto; discriminate. Qed.

Lemma tool_dispatches_tools evs :
  Forall (fun e => is_tool e = true) evs -> tool_dispatches evs = length evs.
Proof. induction 1 as [|[] ? ? ?]; simpl in *; auto; discriminate. Qed.

Lemma tool_rounds_from_true_le tr :
  (tool_rounds_from true tr <= tool_rounds_from false tr)%nat.
Proof. destruct tr as [|[]]; simpl; lia. Qed.

(** Dispatches followed by a model call form one round at most, and
    exactly one when there is a dispatch. *)
Lemma tool_rounds_tools_api b evs req res rest :
  Forall (fun e => is_tool e = true) evs ->
  tool_rounds_from b (evs ++ EvApi req res :: rest)
  = (tool_rounds_from b evs + tool_rounds_from false rest)%nat.
Proof.
  intros H. revert b. induction H as [|[] ? ? ?]; intros b; simpl in *;
    try discriminate; auto.
  rewrite IHForall. lia.
Qed.

Lemma tool_rounds_tools_in_round evs :
  Forall (fun e => is_tool e = true) evs -> tool_rounds_from true evs = 0%nat.
Proof. induction 1 as [|[] ? ? ?]; simpl in *; auto; discriminate. Qed.

Lemma tool_rounds_tools_le b evs :
  Forall (fun e => is_tool e = true) evs ->
  (tool_rounds_from b evs <= 1)%nat.
Proof.
  intros H. destruct H as [|[] l Hx Hl]; simpl in *; try discriminate; [lia|].
  rewrite (tool_rounds_tools_in_round l Hl). destruct b; lia.
Qed.

Lemma tool_rounds_tools_nonempty evs :
  Forall (fun e => is_tool e = true) evs -> evs <> [] ->
  tool_rounds_from false evs = 1%nat.
Proof.
  intros H Hne. destruct H as [|[] l Hx Hl]; simpl in *; try done.
  by rewrite (tool_rounds_tools_in_round l Hl).
Qed.

(** * Building and sending a request *)

Lemma plain_params_system self messages sys :
  plain_params self messages sys !! "system" = Some sys.
Proof. apply lookup_insert_eq. Qed.

Lemma plain_params_messages self messages sys :
  plain_params self messages sys !! "messages" = Some (VList messages).
Proof. unfold plain_params. by rewrite lookup_insert_ne, lookup_insert_eq. Qed.

Lemma plain_params_offers_nothing self messages sys :
  offers_nothing (plain_params self messages sys).
Proof. split; reflexivity. Qed.

Lemma with_tools_offers v d : offers (with_tools v d) v.
Proof.
  split; unfold with_tools.
  - by rewrite lookup_insert_ne, lookup_insert_eq.
  - apply lookup_insert_eq.
Qed.

Lemma with_tools_other v d k :
  k <> "tools" -> k <> "tool_choice" -> with_tools v d !! k = d !! k.
Proof. intros. unfold with_tools. by rewrite !lookup_insert_ne. Qed.

Lemma heap_insert_fresh (h : gmap loc Object) l o :
  h !! l = None -> h ⊆ <[l := o]> h.
Proof.
  intros Hl. apply map_subseteq_spec. intros i x Hi.
  rewrite lookup_insert_ne; [done|]. intros ->. congruence.
Qed.

Lemma heap_insert_private (h0 h : gmap loc Object) l o :
  h0 !! l = None -> h0 ⊆ h -> h0 ⊆ <[l := o]> h.
Proof.
  intros Hl Hsub. apply map_subseteq_spec. intros i x Hi.
  rewrite lookup_insert_ne; [|intros ->; congruence].
  by eapply lookup_weaken.
Qed.

(** Sending the dictionary stored at a fresh location [p]. *)
Lemma wp_send self p d messages h w Q :
  heap w !! p = None ->
  d !! "messages" = Some (VList messages) ->
  h = <[p := ODict d]> (heap w) ->
  (forall ms, heap w !! messages = Some (OList ms) ->
     let req := mkRequest d ms in
     Q (client self (trace w) req)
       (mkWorld h (trace w ++ [EvApi req (client self (trace w) req)]))) ->
  ((forall ms, heap w !! messages <> Some (OList ms)) ->
     forall e, Q (Raise e) (mkWorld h (trace w))) ->
  wp (messages_create self p) (mkWorld h (trace w)) Q.
Proof.
  intros Hp Hm -> Hok Herr. apply wp_messages_create; simpl.
  - intros d' l' ms Hd' Hm' Hl'. rewrite lookup_insert_eq in Hd'.
    simplify_eq. apply Hok.
    destruct (decide (p = messages)) as [->|Hne].
    + by rewrite lookup_insert_eq in Hl'.
    + by rewrite lookup_insert_ne in Hl'.
  - intros Hno e. apply Herr. intros ms Hms.
    apply (Hno d messages ms); [apply lookup_insert_eq|done|].
    rewrite lookup_insert_ne; [done|]. intros ->. congruence.
Qed.

Lemma wp_truthy_opt tools w Q :
  (forall t, (forall ts, tools = Some (VTools ts) ->
                t = negb (Nat.eqb (length ts) 0)) ->
             (tools = None -> t = false) ->
             Q (Ok t) w) ->
  ((exists l, tools = Some (VList l)) -> forall e, Q (Raise e) w) ->
  wp (truthy_opt tools) w Q.
Proof.
  intros Hok Herr. destruct tools as [[s|z|l|ts|c]|]; simpl;
    try (apply wp_ret, Hok; [intros; simplify_eq|]; done).
  apply wp_bind, wp_list_obj; [|intros _; apply Herr; eauto].
  intros ms _. apply wp_ret, Hok; intros; simplify_eq.
Qed.

Lemma wp_make_api_call self messages sys tools w Q :
  (forall ms d w',
     heap w !! messages = Some (OList ms) ->
     heap w ⊆ heap w' ->
     (d = plain_params self messages sys
        /\ (forall ts, tools = Some (VTools ts) -> ts = [])
      \/ exists v, tools = Some v
           /\ d = with_tools v (plain_params self messages sys)
           /\ (forall ts, tools = Some (VTools ts) -> ts <> [])) ->
     let req := mkRequest d ms in
     trace w' = trace w ++ [EvApi req (client self (trace w) req)] ->
     Q (client self (trace w) req) w') ->
  ((forall ms, heap w !! messages <> Some (OList ms))
   \/ (exists l, tools = Some (VList l)) ->
   forall e w', heap w ⊆ heap w' -> trace w' = trace w -> Q (Raise e) w') ->
  wp (_make_api_call self messages sys tools) w Q.
Proof.
  intros Hok Herr. unfold _make_api_call.
  apply wp_bind, wp_alloc. intros p Hp. fold (plain_params self messages sys).
  assert (Hsub : forall d, heap w ⊆ <[p := ODict d]> (heap w)).
  { intros d. by apply heap_insert_fresh. }
  apply wp_bind, wp_truthy_opt; simpl.
  2:{ intros Hl e. apply Herr; simpl; auto. }
  intros t Hts Hnone. apply wp_bind.
  assert (Hplain :
    (forall ts, tools = Some (VTools ts) -> ts = []) ->
    wp (messages_create self p)
       (mkWorld (<[p := ODict (plain_params self messages sys)]> (heap w))
          (trace w)) Q).
  { intros Hempty.
    apply (wp_send self p (plain_params self messages sys) messages _ w);
      [done|apply plain_params_messages|done| |].
    - intros ms Hms. apply Hok; simpl; auto.
    - intros Hno e. apply Herr; simpl; auto. }
  destruct tools as [v|]; [destruct t|].
  - apply wp_bind, wp_dict_setitem; simpl.
    2:{ intros Hno. edestruct Hno. apply lookup_insert_eq. }
    intros m Hm. rewrite lookup_insert_eq in Hm. simplify_eq.
    rewrite insert_insert_eq.
    apply wp_dict_setitem; simpl.
    2:{ intros Hno. edestruct Hno. apply lookup_insert_eq. }
    intros m Hm. rewrite lookup_insert_eq in Hm. simplify_eq.
    rewrite insert_insert_eq.
    fold (with_tools v (plain_params self messages sys)).
    apply (wp_send self p (with_tools v (plain_params self messages sys))
             messages _ w);
      [done
      |rewrite with_tools_other by done; apply plain_params_messages
      |done| |].
    + intros ms Hms. apply Hok; simpl; auto. right. exists v. split; [done|].
      split; [done|]. intros ts Hv. specialize (Hts ts Hv).
      destruct ts; [discriminate|done].
    + intros Hno e. apply Herr; simpl; auto.
  - apply wp_ret, Hplain. intros ts Hv. specialize (Hts ts Hv).
    destruct ts; [done|discriminate].
  - apply wp_ret, Hplain. intros; discriminate.
Qed.

(** * What every run of the round loop satisfies *)

Lemma event_ok_tools sys tools evs :
  Forall (fun e => is_tool e = true) evs -> Forall (event_ok sys tools) evs.
Proof. induction 1 as [|[] ? ? ?]; constructor; simpl in *; auto; discriminate. Qed.

Lemma run_post_tools {A} h0 sys tools na nr w' tr evs (r : result A) :
  h0 ⊆ heap w' -> trace w' = tr ++ evs ->
  Forall (fun e => is_tool e = true) evs ->
  run_post h0 sys tools na (S nr) tr r w'.
Proof.
  intros Hsub Htr Hev. split; [done|]. exists evs.
  split; [done|]. split; [by apply event_ok_tools|].
  rewrite (api_calls_tools _ Hev). split; [lia|].
  pose proof (tool_rounds_tools_le false evs Hev). unfold tool_rounds. lia.
Qed.

Lemma run_post_nil {A} h0 sys tools na nr w (r : result A) :
  h0 ⊆ heap w -> run_post h0 sys tools na nr (trace w) r w.
Proof.
  intros Hsub. split; [done|]. exists []. rewrite app_nil_r.
  repeat split; auto; simpl; unfold tool_rounds; simpl; lia.
Qed.

Lemma run_post_api {A} h0 sys tools na nr w1 w' tr evs req res (r : result A) :
  Forall (fun e => is_tool e = true) evs ->
  event_ok sys tools (EvApi req res) ->
  trace w1 = tr ++ evs ++ [EvApi req res] ->
  run_post h0 sys tools na nr (trace w1) r w' ->
  run_post h0 sys tools (S na) (S nr) tr r w'.
Proof.
  intros Hev Hreq Htr [Hsub (evs' & Htr' & Hok & Hapi & Hrounds)].
  split; [done|]. exists (evs ++ EvApi req res :: evs').
  split. { rewrite Htr', Htr, <- !app_assoc. done. }
  split. { apply Forall_app. split; [by apply event_ok_tools|]. by constructor. }
  rewrite api_calls_app, (api_calls_tools _ Hev). simpl. split; [lia|].
  unfold tool_rounds in *. rewrite tool_rounds_tools_api by done.
  pose proof (tool_rounds_tools_le false evs Hev). lia.
Qed.

Lemma built_params_ok self messages sys otools tools d req_res :
  (tools = None \/ tools = otools) ->
  (d = plain_params self messages sys
     /\ (forall ts, tools = Some (VTools ts) -> ts = [])
   \/ exists v, tools = Some v
        /\ d = with_tools v (plain_params self messages sys)
        /\ (forall ts, tools = Some (VTools ts) -> ts <> [])) ->
  forall ms, event_ok (Some sys) otools (EvApi (mkRequest d ms) req_res).
Proof.
  intros Htools [[-> _]|(v & -> & -> & _)] ms; simpl.
  - split; [apply plain_params_system|left; apply plain_params_offers_nothing].
  - split.
    + rewrite with_tools_other by done. apply plain_params_system.
    + right. exists v. split; [|apply with_tools_offers].
      destruct Htools; [discriminate|done].
Qed.

Lemma rounds_loop_any self bp tm max_rounds rounds :
  forall messages current w h0 d,
    h0 ⊆ heap w -> h0 !! messages = None -> h0 !! bp = Some (ODict d) ->
    wp (rounds_loop self bp tm max_rounds rounds messages current) w
       (run_post h0 (d !! "system") (d !! "tools")
          (length rounds) (length rounds) (trace w)).
Proof.
  induction rounds as [|round_num rest IH]; intros messages current w h0 d Hsub Hmsg Hbp.
  { apply wp_ret. by apply run_post_nil. }
  cbn [rounds_loop length].
  destruct (_has_tool_use current); simpl.
  2:{ apply wp_ret. by apply run_post_nil. }
  apply wp_bind, wp_list_append.
  2:{ intros _ e. by apply run_post_nil. }
  intros ms Hms.
  apply wp_bind, wp_execute_tools; simpl.
  2:{ intros e evs He. eapply run_post_tools;
        [by apply heap_insert_private|done
        |by eapply dispatch_escapes_all_tool]. }
  intros [tool_results error] evs Hd.
  pose proof (dispatches_all_tool _ _ _ _ _ _ Hd) as Hev.
  assert (Hsub1 : h0 ⊆ <[messages := OList (ms ++ [mkMessage "assistant" (BlockContent (content current))])]> (heap w)).
  { by apply heap_insert_private. }
  destruct (error_truthy error).
  { apply wp_ret. by eapply run_post_tools. }
  apply wp_bind, wp_list_append; simpl.
  2:{ intros _ e. by eapply run_post_tools. }
  intros ms1 Hms1.
  match goal with |- wp _ ?w1 _ => set (w3 := w1) end.
  assert (Hsub3 : h0 ⊆ heap w3).
  { unfold w3. simpl. by apply heap_insert_private. }
  assert (Hbp3 : forall m, heap w3 !! bp = Some (ODict m) -> m = d).
  { intros m Hm. pose proof (lookup_weaken _ _ _ _ Hbp Hsub3). congruence. }
  assert (Htr3 : trace w3 = trace w ++ evs) by done.
  clearbody w3.
  destruct (round_num =? max_rounds).
  - apply wp_bind, wp_dict_getitem.
    2:{ intros _ e. by eapply run_post_tools. }
    intros m sys Hm Hsys. apply Hbp3 in Hm as ->.
    apply wp_bind, wp_make_api_call.
    2:{ intros _ e w' Hsub' Htr'. eapply run_post_tools; [|by rewrite Htr'|done].
        by etrans. }
    intros ms' d' w' Hms' Hsub' Hd' req Htr'.
    assert (Hpost : forall r : result string,
      run_post h0 (d !! "system") (d !! "tools")
        (S (length rest)) (S (length rest)) (trace w) r w').
    { intros r. eapply run_post_api; [exact Hev| |by rewrite Htr', Htr3, <- app_assoc|].
      - rewrite Hsys. eapply built_params_ok; [by left|done].
      - apply run_post_nil. by etrans. }
    destruct (client self (trace w3) req); [apply wp_ret|]; apply Hpost.
  - apply wp_bind, wp_dict_getitem.
    2:{ intros _ e. by eapply run_post_tools. }
    intros m sys Hm Hsys. apply Hbp3 in Hm as ->.
    apply wp_bind, wp_dict_get.
    2:{ intros _ e. by eapply run_post_tools. }
    intros m Hm. apply Hbp3 in Hm as ->.
    apply wp_bind, wp_make_api_call.
    2:{ intros _ e w' Hsub' Htr'. eapply run_post_tools; [|by rewrite Htr'|done].
        by etrans. }
    intros ms' d' w' Hms' Hsub' Hd' req Htr'.
    assert (Hok : event_ok (d !! "system") (d !! "tools")
                    (EvApi req (client self (trace w3) req))).
    { rewrite Hsys. eapply built_params_ok; [by right|done]. }
    destruct (client self (trace w3) req) as [next|e].
    + eapply wp_mono; [apply (IH messages next w' h0 d); [by etrans|done|done]|].
      intros r w'' Hpost. eapply run_post_api; [exact Hev|exact Hok| |exact Hpost].
      by rewrite Htr', Htr3, <- app_assoc.
    + eapply run_post_api; [exact Hev|exact Hok| |].
      * by rewrite Htr', Htr3, <- app_assoc.
      * apply run_post_nil. by etrans.
Qed.

Lemma run_post_first {A} h0 h1 sys tools na nr w1 w' tr req res (r : result A) :
  event_ok sys tools (EvApi req res) ->
  trace w1 = tr ++ [EvApi req res] ->
  h0 ⊆ h1 ->
  run_post h1 sys tools na nr (trace w1) r w' ->
  run_post h0 sys tools (S na) nr tr r w'.
Proof.
  intros Hreq Htr Hh [Hsub (evs' & Htr' & Hok & Hapi & Hrounds)].
  split; [by etrans|]. exists (EvApi req res :: evs').
  split. { rewrite Htr', Htr, <- !app_assoc. done. }
  split; [by constructor|]. simpl. split; [lia|done].
Qed.

Lemma handle_sequential_any self initial bp tm max_rounds w :
  wp (_handle_sequential_tool_execution self initial bp tm max_rounds) w
     (fun r w' =>
        heap w ⊆ heap w'
        /\ forall d, heap w !! bp = Some (ODict d) ->
             run_post (heap w) (d !! "system") (d !! "tools")
               (Z.to_nat max_rounds) (Z.to_nat max_rounds) (trace w) r w').
Proof.
  unfold _handle_sequential_tool_execution.
  assert (Hstay : forall e : exn,
    heap w ⊆ heap w
    /\ forall d, heap w !! bp = Some (ODict d) ->
         run_post (heap w) (d !! "system") (d !! "tools")
           (Z.to_nat max_rounds) (Z.to_nat max_rounds) (trace w)
           (@Raise string e) w).
  { intros e. split; [done|]. intros d _. by apply run_post_nil. }
  apply wp_bind, wp_dict_getitem; [|intros _ e; apply Hstay].
  intros d v Hbp Hv. apply wp_bind.
  destruct v as [s|z|l|ts|c]; try (apply wp_raise, Hstay).
  apply wp_list_copy; [|intros _; apply Hstay].
  intros ms messages Hl Hfresh.
  eapply wp_mono.
  { apply (rounds_loop_any self bp tm max_rounds (seqZ 1 max_rounds)
             messages initial _ (heap w) d); simpl; auto.
    by apply heap_insert_fresh. }
  simpl. intros r w' Hpost. rewrite length_seqZ in Hpost.
  split; [apply Hpost|]. intros d' Hd'. by simplify_eq.
Qed.

(** * What every run of [generate_response] satisfies *)

Lemma run_post_weaken {A} h0 h1 sys tools na nr tr (r : result A) w' :
  h0 ⊆ h1 -> run_post h1 sys tools na nr tr r w' ->
  run_post h0 sys tools na nr tr r w'.
Proof. intros Hh [Hsub Hevs]. split; [by etrans|done]. Qed.

Lemma run_post_relax {A B} h0 sys tools na nr na' nr' tr
    (r : result A) (r' : result B) w' :
  (na <= na')%nat -> (nr <= nr')%nat ->
  run_post h0 sys tools na nr tr r w' -> run_post h0 sys tools na' nr' tr r' w'.
Proof.
  intros Ha Hr [Hsub (evs & Htr & Hok & Hapi & Hrounds)].
  split; [done|]. exists evs. repeat split; auto; lia.
Qed.

Lemma initial_params_system self messages history tools :
  initial_params self messages history tools !! "system"
  = Some (VStr (system_content history)).
Proof.
  unfold initial_params. destruct (catalog_value tools).
  - rewrite with_tools_other by done. apply plain_params_system.
  - apply plain_params_system.
Qed.

Lemma initial_params_messages self messages history tools :
  initial_params self messages history tools !! "messages"
  = Some (VList messages).
Proof.
  unfold initial_params. destruct (catalog_value tools).
  - rewrite with_tools_other by done. apply plain_params_messages.
  - apply plain_params_messages.
Qed.

Lemma initial_params_tools self messages history tools :
  initial_params self messages history tools !! "tools" = catalog_value tools.
Proof.
  unfold initial_params. destruct (catalog_value tools) as [v|].
  - apply with_tools_offers.
  - apply plain_params_offers_nothing.
Qed.

Lemma initial_params_ok self messages history tools ms res :
  event_ok (Some (VStr (system_content history))) (catalog_value tools)
    (EvApi (mkRequest (initial_params self messages history tools) ms) res).
Proof.
  simpl. split; [apply initial_params_system|].
  unfold initial_params. destruct (catalog_value tools) as [v|].
  - right. exists v. split; [done|apply with_tools_offers].
  - left. apply plain_params_offers_nothing.
Qed.

(** The part of [generate_response] up to and including the first model
    call. *)
Lemma wp_generate_response_call self query history tools w
    (k : loc -> Response -> M string) Q :
  (forall messages p h,
     heap w !! messages = None -> heap w ⊆ h ->
     h !! p = Some (ODict (initial_params self messages history tools)) ->
     h !! messages = Some (OList [mkMessage "user" (TextContent query)]) ->
     let req := mkRequest (initial_params self messages history tools)
                  [mkMessage "user" (TextContent query)] in
     let res := client self (trace w) req in
     match res with
     | Ok response =>
         wp (k p response) (mkWorld h (trace w ++ [EvApi req res])) Q
     | Raise e => Q (Raise e) (mkWorld h (trace w ++ [EvApi req res]))
     end) ->
  wp (messages <- alloc (OList [mkMessage "user" (TextContent query)]) ;;
      api_params <- alloc (ODict (<["system" := VStr (system_content history)]>
                                    (<["messages" := VList messages]>
                                       (base_params self)))) ;;
      (match tools with
       | Some ts =>
           if catalog_truthy tools then
             dict_setitem api_params "tools" (VTools ts) ;;;
             dict_setitem api_params "tool_choice" (VChoice "auto")
           else ret tt
       | None => ret tt
       end) ;;;
      response <- messages_create self api_params ;;
      k api_params response) w Q.
Proof.
  intros H.
  apply wp_bind, wp_alloc. intros messages Hm.
  apply wp_bind, wp_alloc. simpl. intros p Hp.
  fold (plain_params self messages (VStr (system_content history))).
  set (q := mkMessage "user" (TextContent query)) in *.
  set (h1 := <[messages := OList [q]]> (heap w)) in *.
  assert (Hh1 : heap w ⊆ h1) by by apply heap_insert_fresh.
  assert (Hq : h1 !! messages = Some (OList [q])) by apply lookup_insert_eq.
  assert (Hsend : forall d,
    d = initial_params self messages history tools ->
    wp (response <- messages_create self p ;; k p response)
       (mkWorld (<[p := ODict d]> h1) (trace w)) Q).
  { intros d ->. apply wp_bind.
    apply (wp_send self p (initial_params self messages history tools)
             messages _ (mkWorld h1 (trace w)));
      [done|apply initial_params_messages|done| |]; simpl.
    - intros ms Hms. assert (ms = [q]) as -> by congruence.
      assert (Hsub : heap w ⊆ <[p := ODict (initial_params self messages history tools)]> h1).
      { etrans; [exact Hh1|]. by apply heap_insert_fresh. }
      specialize (H messages p _ Hm Hsub (lookup_insert_eq _ _ _)).
      simpl in H. rewrite lookup_insert_ne in H by (intros ->; congruence).
      specialize (H Hq). exact H.
    - intros Hno. by destruct (Hno [q]). }
  apply wp_bind.
  destruct tools as [ts|]; [destruct (catalog_truthy (Some ts)) eqn:Ht|].
  - apply wp_bind, wp_dict_setitem; simpl.
    2:{ intros Hno. edestruct Hno. apply lookup_insert_eq. }
    intros m Hd. rewrite lookup_insert_eq in Hd. simplify_eq.
    rewrite insert_insert_eq.
    apply wp_dict_setitem; simpl.
    2:{ intros Hno. edestruct Hno. apply lookup_insert_eq. }
    intros m Hd. rewrite lookup_insert_eq in Hd. simplify_eq.
    rewrite insert_insert_eq. apply Hsend.
    unfold initial_params, catalog_value. by rewrite Ht.
  - apply wp_ret, Hsend. unfold initial_params, catalog_value. by rewrite Ht.
  - apply wp_ret, Hsend. done.
Qed.

(** The direct return fails or succeeds without further interaction. *)
Lemma wp_content0_text response w Q :
  (forall r, content0_text response w = (r, w) -> Q r w) ->
  wp (content0_text response) w Q.
Proof.
  intros H. unfold wp. destruct (content0_text response w) as [r w'] eqn:E.
  assert (w' = w) as ->.
  { unfold content0_text in E. destruct (content response) as [|[]]; by inversion E. }
  auto.
Qed.

Lemma generate_response_any self query history tools tm w :
  wp (generate_response self query history tools tm) w
     (run_post (heap w) (Some (VStr (system_content history)))
        (catalog_value tools) 3 2 (trace w)).
Proof.
  unfold generate_response.
  apply (wp_generate_response_call self query history tools w
           (fun api_params response =>
              match tm with
              | Some tm =>
                  if String.eqb (stop_reason response) "tool_use" then
                    _handle_sequential_tool_execution self response
                      api_params tm 2
                  else content0_text response
              | None => content0_text response
              end)).
  intros messages p h Hm Hsub Hp Hmsgs req res.
  set (w1 := mkWorld h (trace w ++ [EvApi req res])).
  assert (Hdirect : forall r : result string,
    run_post (heap w) (Some (VStr (system_content history)))
      (catalog_value tools) 3 2 (trace w) r w1).
  { intros r. eapply (run_post_first _ h _ _ _ _ w1 w1 _ req res);
      [apply initial_params_ok|done|exact Hsub|].
    by apply run_post_nil. }
  destruct res as [response|e]; [|apply Hdirect].
  assert (Hc : wp (content0_text response) w1
                 (run_post (heap w) (Some (VStr (system_content history)))
                    (catalog_value tools) 3 2 (trace w))).
  { apply wp_content0_text. intros r _. apply Hdirect. }
  destruct tm as [tm|]; [|exact Hc].
  destruct (String.eqb (stop_reason response) "tool_use"); [|exact Hc].
  eapply wp_mono; [apply handle_sequential_any|].
  intros r w' [_ Hpost]. specialize (Hpost _ Hp).
  rewrite initial_params_system, initial_params_tools in Hpost.
  eapply (run_post_first _ h _ _ _ _ w1 w' _ req (Ok response));
    [apply initial_params_ok|done|exact Hsub|exact Hpost].
Qed.

(** * One iteration of the round loop, step by step *)

Lemma loop_ready_distinct bp messages d sys ms w :
  loop_ready bp messages d sys ms w -> bp <> messages.
Proof. intros (Hbp & _ & Hms & _) ->. congruence. Qed.

Lemma loop_ready_append bp messages d sys ms m w :
  loop_ready bp messages d sys ms w ->
  loop_ready bp messages d sys (ms ++ [m])
    (mkWorld (<[messages := OList (ms ++ [m])]> (heap w)) (trace w)).
Proof.
  intros Hr. pose proof (loop_ready_distinct _ _ _ _ _ _ Hr) as Hne.
  destruct Hr as (Hbp & Hsys & Hms & Htools).
  repeat split; simpl; auto.
  - by rewrite lookup_insert_ne.
  - apply lookup_insert_eq.
Qed.

Lemma loop_ready_heap bp messages d sys ms w w' :
  heap w' = heap w ->
  loop_ready bp messages d sys ms w -> loop_ready bp messages d sys ms w'.
Proof. unfold loop_ready. by intros ->. Qed.

Lemma loop_ready_weaken bp messages d sys ms w w' :
  loop_ready bp messages d sys ms w -> heap w ⊆ heap w' ->
  loop_ready bp messages d sys ms w'.
Proof.
  intros (Hbp & Hsys & Hms & Htools) Hsub.
  repeat split; auto; by eapply lookup_weaken.
Qed.

Lemma wp_round self bp tm max_rounds round_num rest messages current
    w d sys ms Q :
  loop_ready bp messages d sys ms w ->
  _has_tool_use current = true ->
  (forall results error evs,
     dispatches tm (trace w) (content current) [] (results, error) evs ->
     if error_truthy error then
       forall w',
         trace w' = trace w ++ evs ->
         loop_ready bp messages d sys (ms ++ [assistant_turn current]) w' ->
         Q (Ok (_handle_tool_error (default EmptyString error) current)) w'
     else
       forall d' w',
         let ms2 := ms ++ [assistant_turn current; tool_result_turn results] in
         let tools := if round_num =? max_rounds then None else d !! "tools" in
         built_from self messages sys tools d' ->
         let req := mkRequest d' ms2 in
         let res := client self (trace w ++ evs) req in
         trace w' = trace w ++ evs ++ [EvApi req res] ->
         loop_ready bp messages d sys ms2 w' ->
         match res with
         | Ok resp =>
             if round_num =? max_rounds
             then Q (Ok (_extract_text_response resp)) w'
             else wp (rounds_loop self bp tm max_rounds rest messages resp) w' Q
         | Raise e => Q (Raise e) w'
         end) ->
  (forall e evs w',
     dispatch_escapes tm (trace w) (content current) e evs ->
     trace w' = trace w ++ evs ->
     loop_ready bp messages d sys (ms ++ [assistant_turn current]) w' ->
     Q (Raise e) w') ->
  wp (rounds_loop self bp tm max_rounds (round_num :: rest) messages current)
     w Q.
Proof.
  intros Hready Htool H Hesc. cbn [rounds_loop]. rewrite Htool. simpl.
  apply wp_bind, wp_list_append.
  2:{ intros Hno. destruct Hready as (_ & _ & Hms & _). by destruct (Hno ms). }
  intros ms0 Hms0.
  assert (ms0 = ms) as ->.
  { destruct Hready as (_ & _ & Hms & _). congruence. }
  pose proof (loop_ready_append _ _ _ _ _ (assistant_turn current) _ Hready)
    as Hready1.
  apply wp_bind, wp_execute_tools; simpl.
  2:{ intros e evs He. eapply Hesc; [exact He|done|].
      eapply loop_ready_heap; [|exact Hready1]. done. }
  intros [results error] evs Hd.
  specialize (H results error evs Hd).
  destruct (error_truthy error).
  { apply wp_ret. apply H; [done|].
    eapply loop_ready_heap; [|exact Hready1]. done. }
  apply wp_bind, wp_list_append; simpl.
  2:{ intros Hno. edestruct Hno. apply lookup_insert_eq. }
  intros ms1 Hms1. rewrite lookup_insert_eq in Hms1. simplify_eq.
  rewrite insert_insert_eq, <- app_assoc. simpl.
  pose proof (loop_ready_append _ _ _ _ _ (tool_result_turn results) _ Hready1)
    as Hready2.
  simpl in Hready2. rewrite insert_insert_eq, <- app_assoc in Hready2.
  simpl in Hready2.
  match goal with |- wp _ ?w2 _ => set (w3 := w2) in * end.
  assert (Htr3 : trace w3 = trace w ++ evs) by done.
  assert (Hready3 : loop_ready bp messages d sys
            (ms ++ [assistant_turn current; tool_result_turn results]) w3).
  { eapply loop_ready_heap; [|exact Hready2]. done. }
  clearbody w3. clear Hready2.
  destruct Hready3 as (Hbp & Hsys & Hms & Htools).
  assert (Hcall : forall tools k,
    (tools = None \/ tools = d !! "tools") ->
    (forall d' w',
       built_from self messages sys tools d' ->
       let req := mkRequest d'
         (ms ++ [assistant_turn current; tool_result_turn results]) in
       let res := client self (trace w ++ evs) req in
       trace w' = trace w ++ evs ++ [EvApi req res] ->
       loop_ready bp messages d sys
         (ms ++ [assistant_turn current; tool_result_turn results]) w' ->
       match res with
       | Ok resp => wp (k resp) w' Q
       | Raise e => Q (Raise e) w'
       end) ->
    wp (r <- _make_api_call self messages sys tools ;; k r) w3 Q).
  { intros tools k Ht Hk. apply wp_bind, wp_make_api_call.
    - intros ms' d' w' Hms' Hsub' Hd' req Htr'.
      assert (ms' = ms ++ [assistant_turn current; tool_result_turn results])
        as -> by congruence.
      rewrite Htr3 in *.
      specialize (Hk d' w' Hd'). simpl in Hk. apply Hk.
      + by rewrite Htr', <- app_assoc.
      + eapply loop_ready_weaken; [|exact Hsub']. by repeat split.
    - intros [Hno|[l Hl]]; [by edestruct Hno|].
      destruct Ht as [-> | ->]; [done|]. by destruct (Htools l). }
  destruct (round_num =? max_rounds) eqn:Hlast.
  - apply wp_bind, wp_dict_getitem.
    2:{ intros Hno. by destruct (Hno d sys). }
    intros m v Hm Hv. assert (m = d) as -> by congruence.
    assert (v = sys) as -> by congruence.
    apply Hcall; [by left|]. intros d' w' Hd' req res Htr' Hr'.
    specialize (H d' w' Hd' Htr' Hr'). simpl in H. fold req res in H.
    destruct res; [by apply wp_ret|done].
  - apply wp_bind, wp_dict_getitem.
    2:{ intros Hno. by destruct (Hno d sys). }
    intros m v Hm Hv. assert (m = d) as -> by congruence.
    assert (v = sys) as -> by congruence.
    apply wp_bind, wp_dict_get.
    2:{ intros Hno. by destruct (Hno d). }
    intros m Hm'. assert (m = d) as -> by congruence.
    apply Hcall; [by right|]. intros d' w' Hd' req res Htr' Hr'.
    specialize (H d' w' Hd' Htr' Hr'). simpl in H. fold req res in H.
    by destruct res.
Qed.

(** * Runs in which every round requests a tool and every dispatch returns *)

Lemma dispatches_returns tm tr blocks acc results error evs :
  (forall tr name input, exists out, tm tr name input = Ok out) ->
  dispatches tm tr blocks acc (results, error) evs -> error = None.
Proof.
  intros Htm H. remember (results, error) as out eqn:Ho.
  revert results error Ho.
  induction H; intros results error Ho; simplify_eq; eauto.
  destruct (Htm tr name input) as [out Hout]. congruence.
Qed.

Lemma dispatch_escapes_returns tm tr blocks e evs :
  (forall tr name input, exists out, tm tr name input = Ok out) ->
  dispatch_escapes tm tr blocks e evs -> False.
Proof.
  intros Htm. induction 1; auto.
  destruct (Htm tr name input) as [out Hout]. congruence.
Qed.

Lemma built_from_none self messages sys d :
  built_from self messages sys None d -> d = plain_params self messages sys.
Proof. by intros [[-> _]|(v & ? & _)]. Qed.

(** Entering the handler with a well-formed request dictionary. *)
Lemma wp_handle_sequential self initial bp tm max_rounds w d src sys ms Q :
  heap w !! bp = Some (ODict d) ->
  d !! "messages" = Some (VList src) ->
  heap w !! src = Some (OList ms) ->
  d !! "system" = Some sys ->
  (forall l, d !! "tools" <> Some (VList l)) ->
  (forall messages w1,
     heap w !! messages = None -> heap w ⊆ heap w1 -> trace w1 = trace w ->
     loop_ready bp messages d sys ms w1 ->
     wp (rounds_loop self bp tm max_rounds (seqZ 1 max_rounds) messages initial)
        w1 Q) ->
  wp (_handle_sequential_tool_execution self initial bp tm max_rounds) w Q.
Proof.
  intros Hbp Hsrc Hms Hsys Htools H. unfold _handle_sequential_tool_execution.
  apply wp_bind, wp_dict_getitem.
  2:{ intros Hno. by destruct (Hno d (VList src)). }
  intros m v Hm Hv. assert (m = d) as -> by congruence.
  assert (v = VList src) as -> by congruence.
  apply wp_bind, wp_list_copy.
  2:{ intros Hno. by destruct (Hno ms). }
  intros ms' messages Hms' Hfresh. assert (ms' = ms) as -> by congruence.
  apply H; simpl; auto.
  - by apply heap_insert_fresh.
  - repeat split; simpl; auto.
    + rewrite lookup_insert_ne; [done|]. intros ->. congruence.
    + apply lookup_insert_eq.
Qed.

Section every_round_requests_a_tool.
Variable self : AIGenerator.
Variable tm : ToolManager.
Variable max_rounds : Z.
(** Model calls made before the query began. *)
Variable n0 : nat.

Hypothesis model_requests_tools :
  forall tr req, (api_calls tr < n0 + Z.to_nat max_rounds)%nat ->
    exists resp, client self tr req = Ok resp /\ _has_tool_use resp = true.
Hypothesis model_answers :
  forall tr req, api_calls tr = (n0 + Z.to_nat max_rounds)%nat ->
    exists resp, client self tr req = Ok resp.
Hypothesis dispatch_returns :
  forall tr name input, exists out, tm tr name input = Ok out.

(** With [S j] rounds left, the loop runs them all and ends with the
    forced final call. *)
Lemma rounds_loop_exact bp (j : nat) :
  forall k messages current w d sys ms,
    k + Z.of_nat j = max_rounds -> 1 <= k ->
    loop_ready bp messages d sys ms w ->
    _has_tool_use current = true ->
    api_calls (trace w) = (n0 + Z.to_nat k)%nat ->
    wp (rounds_loop self bp tm max_rounds (seqZ k (Z.of_nat (S j)))
          messages current) w
       (fun r w' =>
          exists evs final_req final_resp,
            r = Ok (_extract_text_response final_resp)
            /\ trace w' = trace w ++ evs ++ [EvApi final_req (Ok final_resp)]
            /\ api_calls evs = j
            /\ tool_rounds (evs ++ [EvApi final_req (Ok final_resp)]) = S j
            /\ offers_nothing (req_params final_req)
            /\ length (req_messages final_req)
               = (length ms + 2 * S j)%nat).
Proof.
  induction j as [|j IH]; intros k messages current w d sys ms Hk Hk1
    Hready Htool Hcalls.
  - rewrite seqZ_cons by lia.
    eapply wp_round; [done|done| |].
    2:{ intros e evs w' He. by destruct (dispatch_escapes_returns _ _ _ _ _
                                            dispatch_returns He). }
    intros results error evs Hd.
    rewrite (dispatches_returns _ _ _ _ _ _ _ dispatch_returns Hd). simpl.
    pose proof (dispatches_all_tool _ _ _ _ _ _ Hd) as Htools.
    assert ((k =? max_rounds) = true) as -> by lia.
    intros d' w' Hd' Htr' Hready'.
    destruct (model_answers (trace w ++ evs)
                (mkRequest d' (ms ++ [assistant_turn current;
                                      tool_result_turn results])))
      as [resp Hresp].
    { rewrite api_calls_app, (api_calls_tools _ Htools). lia. }
    rewrite Hresp in *. eexists evs, _, resp.
    split; [done|]. split; [done|].
    split; [by apply api_calls_tools|].
    split.
    { unfold tool_rounds. rewrite tool_rounds_tools_api by done. simpl.
      rewrite tool_rounds_tools_nonempty; [lia|done|].
      eapply dispatches_nonempty; [exact Hd|].
      unfold _has_tool_use in Htool. by apply andb_true_iff in Htool as []. }
    split.
    { simpl. rewrite (built_from_none _ _ _ _ Hd').
      apply plain_params_offers_nothing. }
    simpl. rewrite length_app. simpl. lia.
  - rewrite seqZ_cons by lia.
    replace (Z.pred (Z.of_nat (S (S j)))) with (Z.of_nat (S j)) by lia.
    eapply wp_round; [done|done| |].
    2:{ intros e evs w' He. by destruct (dispatch_escapes_returns _ _ _ _ _
                                            dispatch_returns He). }
    intros results error evs Hd.
    rewrite (dispatches_returns _ _ _ _ _ _ _ dispatch_returns Hd). simpl.
    pose proof (dispatches_all_tool _ _ _ _ _ _ Hd) as Htools.
    assert ((k =? max_rounds) = false) as -> by lia.
    intros d' w' Hd' Htr' Hready'.
    destruct (model_requests_tools (trace w ++ evs)
                (mkRequest d' (ms ++ [assistant_turn current;
                                      tool_result_turn results])))
      as (resp & Hresp & Hnext).
    { rewrite api_calls_app, (api_calls_tools _ Htools). lia. }
    rewrite Hresp in *.
    eapply wp_mono.
    { eapply (IH (Z.succ k) messages resp w'); [lia|lia|exact Hready'|done|].
      rewrite Htr', !api_calls_app, (api_calls_tools _ Htools). simpl. lia. }
    simpl.
    intros r w'' (evs' & final_req & final_resp & -> & Htr'' & Hapi & Hr & Hoff & Hlen).
    eexists (evs ++ EvApi _ (Ok resp) :: evs'), final_req, final_resp.
    split; [done|].
    split. { rewrite Htr'', Htr', <- !app_assoc. done. }
    split. { rewrite api_calls_app, (api_calls_tools _ Htools). simpl. lia. }
    split.
    { unfold tool_rounds in *. rewrite <- app_assoc. simpl.
      rewrite tool_rounds_tools_api by done. rewrite Hr.
      rewrite tool_rounds_tools_nonempty; [lia|done|].
      eapply dispatches_nonempty; [exact Hd|].
      unfold _has_tool_use in Htool. by apply andb_true_iff in Htool as []. }
    split; [done|].
    rewrite Hlen, length_app. simpl. lia.
Qed.
End every_round_requests_a_tool.

(** * The first text block of a reply *)

Lemma no_text_block_nil : no_text_block [].
Proof. intros text H. by apply elem_of_nil in H. Qed.

Lemma no_text_block_cons name id input blocks :
  no_text_block blocks -> no_text_block (ToolUseBlock name id input :: blocks).
Proof.
  intros H text [Heq|Hin]%elem_of_cons; [discriminate|]. by apply (H text).
Qed.

(** The loop of [_extract_text_response] finds the first text block. *)
Lemma first_text_block_spec blocks :
  first_text_block blocks (first_text blocks).
Proof.
  induction blocks as [|[text|name id input] rest IH]; simpl.
  - apply no_text_block_nil.
  - exists [], rest. split; [done|apply no_text_block_nil].
  - destruct (first_text rest) as [text|]; simpl in *.
    + destruct IH as (before & after & -> & Hno).
      exists (ToolUseBlock name id input :: before), after.
      split; [done|by apply no_text_block_cons].
    + by apply no_text_block_cons.
Qed.

(** A reply has one first text block at most. *)
Lemma first_text_block_unique blocks found found' :
  first_text_block blocks found -> first_text_block blocks found' ->
  found = found'.
Proof.
  assert (Hsome : forall before text after,
    no_text_block before ->
    first_text (before ++ TextBlock text :: after) = Some text).
  { induction before as [|[t|n i inp] before IH]; intros text after Hno; simpl.
    - done.
    - destruct (Hno t). apply elem_of_cons. by left.
    - apply IH. intros t Hin. apply (Hno t), elem_of_cons. by right. }
  assert (Hnone : forall bs, no_text_block bs -> first_text bs = None).
  { induction bs as [|[t|n i inp] bs IH]; intros Hno; simpl.
    - done.
    - destruct (Hno t). apply elem_of_cons. by left.
    - apply IH. intros t Hin. apply (Hno t), elem_of_cons. by right. }
  assert (H : forall o, first_text_block blocks o -> first_text blocks = o).
  { intros [text|]; simpl.
    - intros (before & after & -> & Hno). by apply Hsome.
    - apply Hnone. }
  intros H1 H2. apply H in H1, H2. congruence.
Qed.

Lemma has_tool_use_stop_reason response :
  _has_tool_use response = true ->
  String.eqb (stop_reason response) "tool_use" = true.
Proof. unfold _has_tool_use. by intros [? _]%andb_true_iff. Qed.

Lemma catalog_value_not_list tools l : catalog_value tools <> Some (VList l).
Proof.
  unfold catalog_value. destruct tools; [|done].
  by destruct (catalog_truthy _).
Qed.

(** C1.  When the model's reply requests a tool in each of the first two
    rounds (two being the [max_rounds] that [generate_response] passes),
    the model answers the final call and a dispatcher is supplied whose
    dispatches return, [generate_response] performs exactly two
    tool-dispatch rounds and exactly three model calls; the last call
    carries neither a tool catalog nor a tool choice, and the text of
    the first text block of its reply is returned (the sentinel when
    that reply holds no text block). *)
Theorem generate_response_max_rounds self query history tools tm w :
  (forall tr req, (api_calls tr < api_calls (trace w) + 2)%nat ->
     exists resp, client self tr req = Ok resp /\ _has_tool_use resp = true) ->
  (forall tr req, api_calls tr = (api_calls (trace w) + 2)%nat ->
     exists resp, client self tr req = Ok resp) ->
  (forall tr name input, exists out, tm tr name input = Ok out) ->
  exists w' evs final_req final_resp found,
    first_text_block (content final_resp) found
    /\ generate_response self query history tools (Some tm) w
       = (Ok (default NO_TEXT found), w')
    /\ trace w' = trace w ++ evs ++ [EvApi final_req (Ok final_resp)]
    /\ api_calls (evs ++ [EvApi final_req (Ok final_resp)]) = 3%nat
    /\ tool_rounds (evs ++ [EvApi final_req (Ok final_resp)]) = 2%nat
    /\ offers_nothing (req_params final_req)
    /\ length (req_messages final_req) = 5%nat.
Proof.
  intros Hmodel Hfinal Htm.
  cut (wp (generate_response self query history tools (Some tm)) w
         (fun r w' =>
            exists evs final_req final_resp,
              r = Ok (_extract_text_response final_resp)
              /\ trace w' = trace w ++ evs ++ [EvApi final_req (Ok final_resp)]
              /\ api_calls (evs ++ [EvApi final_req (Ok final_resp)]) = 3%nat
              /\ tool_rounds (evs ++ [EvApi final_req (Ok final_resp)]) = 2%nat
              /\ offers_nothing (req_params final_req)
              /\ length (req_messages final_req) = 5%nat)).
  { intros Hwp. apply wp_run in Hwp as (r & w' & Hrun & evs & rq & rs & -> & H).
    exists w', evs, rq, rs, (first_text (content rs)).
    split; [apply first_text_block_spec|]. split; [|done].
    rewrite Hrun. unfold _extract_text_response.
    by destruct (first_text (content rs)). }
  unfold generate_response.
  apply (wp_generate_response_call self query history tools w
           (fun api_params response =>
              if String.eqb (stop_reason response) "tool_use" then
                _handle_sequential_tool_execution self response api_params tm 2
              else content0_text response)).
  intros messages p h Hm Hsub Hp Hmsgs req res.
  destruct (Hmodel (trace w) req) as (resp0 & Hres & Htool0); [lia|].
  subst res. rewrite Hres. rewrite (has_tool_use_stop_reason _ Htool0).
  eapply (wp_handle_sequential self resp0 p tm 2 _
            (initial_params self messages history tools) messages
            (VStr (system_content history))); simpl;
    [done|apply initial_params_messages|done|apply initial_params_system| |].
  { intros l. rewrite initial_params_tools. apply catalog_value_not_list. }
  intros messages' w1 Hfresh Hsub1 Htr1 Hready.
  eapply wp_mono.
  { eapply (rounds_loop_exact self tm 2 (api_calls (trace w))
             Hmodel Hfinal Htm p 1%nat 1 messages' resp0 w1 _ _ _);
      [done|done|exact Hready|done|].
    rewrite Htr1. simpl. rewrite api_calls_app. simpl. lia. }
  simpl. intros r w' (evs & rq & rs & -> & Htr & Hapi & Hr & Hoff & Hlen).
  exists (EvApi req (Ok resp0) :: evs), rq, rs.
  split; [done|].
  split. { rewrite Htr, Htr1. simpl. by rewrite <- !app_assoc. }
  split. { simpl. rewrite api_calls_app, Hapi. simpl. lia. }
  split; [exact Hr|]. split; [done|]. exact Hlen.
Qed.

(** * The first model call and what follows it *)

Lemma generate_response_first self query history tools tm w :
  wp (generate_response self query history tools tm) w
     (query_post self query history tools w).
Proof.
  unfold generate_response.
  apply (wp_generate_response_call self query history tools w
           (fun api_params response =>
              match tm with
              | Some tm =>
                  if String.eqb (stop_reason response) "tool_use" then
                    _handle_sequential_tool_execution self response
                      api_params tm 2
                  else content0_text response
              | None => content0_text response
              end)).
  intros messages p h Hm Hsub Hp Hmsgs req res.
  pose proof (initial_params_ok self messages history tools [user_turn query] res)
    as Hok0.
  assert (Hshape : forall (r : result string) w' evs,
    heap w ⊆ heap w' ->
    trace w' = trace w ++ EvApi req res :: evs ->
    Forall (event_ok (Some (VStr (system_content history)))
              (catalog_value tools)) evs ->
    (api_calls evs <= 2)%nat -> (tool_rounds evs <= 2)%nat ->
    query_post self query history tools w r w').
  { intros r w' evs Hs Ht Hev Ha Hr. split; [done|]. exists messages, evs.
    cbv zeta. split; [exact Ht|]. split; [|done].
    constructor; [exact Hok0|exact Hev]. }
  clearbody res.
  set (w1 := mkWorld h (trace w ++ [EvApi req res])).
  assert (Hdirect : forall r : result string,
            query_post self query history tools w r w1).
  { intros r. apply (Hshape r w1 []); simpl; auto.
    all: unfold tool_rounds; simpl; lia. }
  destruct res as [response|e]; [|apply Hdirect].
  assert (Hc : wp (content0_text response) w1
                 (query_post self query history tools w)).
  { apply wp_content0_text. intros r _. apply Hdirect. }
  destruct tm as [tm|]; [|exact Hc].
  destruct (String.eqb (stop_reason response) "tool_use"); [|exact Hc].
  eapply wp_mono; [apply handle_sequential_any|].
  simpl. intros r w' [Hsub' Hpost]. specialize (Hpost _ Hp).
  rewrite initial_params_system, initial_params_tools in Hpost.
  destruct Hpost as [_ (evs & Htr & Hev & Hapi & Hrounds)].
  apply (Hshape r w' evs); auto.
  - by etrans.
  - by rewrite Htr, <- app_assoc.
Qed.

(** The direct return: the reply did not stop for a tool, or no
    dispatcher was supplied. *)
Lemma generate_response_direct self query history tools tm w resp :
  (forall req, client self (trace w) req = Ok resp) ->
  tm = None \/ String.eqb (stop_reason resp) "tool_use" = false ->
  exists req h,
    generate_response self query history tools tm w
      = content0_text resp (mkWorld h (trace w ++ [EvApi req (Ok resp)])).
Proof.
  intros Hclient Hdirect.
  cut (wp (generate_response self query history tools tm) w
         (fun r w' => exists req h,
            (r, w') = content0_text resp
                        (mkWorld h (trace w ++ [EvApi req (Ok resp)])))).
  { unfold wp. intros (req & h & Heq). exists req, h. rewrite <- Heq.
    by destruct (generate_response _ _ _ _ _ _). }
  unfold generate_response.
  apply (wp_generate_response_call self query history tools w
           (fun api_params response =>
              match tm with
              | Some tm =>
                  if String.eqb (stop_reason response) "tool_use" then
                    _handle_sequential_tool_execution self response
                      api_params tm 2
                  else content0_text response
              | None => content0_text response
              end)).
  intros messages p h Hm Hsub Hp Hmsgs req res. subst res.
  rewrite Hclient.
  assert (Hc : wp (content0_text resp)
                 (mkWorld h (trace w ++ [EvApi req (Ok resp)]))
                 (fun r w' => exists req h,
                    (r, w') = content0_text resp
                       (mkWorld h (trace w ++ [EvApi req (Ok resp)])))).
  { unfold wp. exists req, h. by destruct (content0_text _ _). }
  destruct Hdirect as [-> | Hstop]; [exact Hc|].
  rewrite Hstop. by destruct tm.
Qed.

Lemma content0_text_run response w :
  content0_text response w
  = (match content response with
     | [] => Raise (PyExn "IndexError" "list index out of range")
     | TextBlock text :: _ => Ok text
     | ToolUseBlock _ _ _ :: _ => Raise (PyExn "AttributeError" "text")
     end, w).
Proof. unfold content0_text. by destruct (content response) as [|[]]. Qed.

(** * The round budget *)




(** * The caller's objects *)

(** C10.  [_handle_sequential_tool_execution] leaves every object that
    existed before the call as it was; in particular the caller's
    [base_params] dictionary and the message list it refers to hold the
    same contents afterwards: the turns are appended to a copy. *)
Theorem base_params_unchanged self initial bp tm max_rounds w d src ms :
  heap w !! bp = Some (ODict d) ->
  d !! "messages" = Some (VList src) ->
  heap w !! src = Some (OList ms) ->
  let w' := (_handle_sequential_tool_execution self initial bp tm max_rounds w).2 in
  heap w' !! bp = Some (ODict d)
  /\ heap w' !! src = Some (OList ms)
  /\ heap w ⊆ heap w'.
Proof.
  intros Hbp Hsrc Hms w'.
  pose proof (handle_sequential_any self initial bp tm max_rounds w) as H.
  unfold wp in H. destruct H as [Hsub _]. fold w' in Hsub.
  repeat split; [by eapply lookup_weaken..|done].
Qed.

(** * System instructions *)

(** C8, amended.  Every model call of a query carries the same system
    string, [system_content]: the static block when no summary (or an
    empty one) is supplied, and otherwise the static block, the header
    line "Previous conversation:" set off by a blank line, and the
    summary. *)
Theorem system_instructions_reused self query history tools tm w :
  exists req res evs,
    trace (generate_response self query history tools tm w).2
      = trace w ++ EvApi req res :: evs
    /\ Forall (carries_system
                 (match history with
                  | None => SYSTEM_PROMPT
                  | Some h =>
                      if String.eqb h EmptyString then SYSTEM_PROMPT
                      else SYSTEM_PROMPT +:+ nl +:+ nl
                           +:+ "Previous conversation:" +:+ nl +:+ h
                  end))
              (EvApi req res :: evs).
Proof.
  pose proof (generate_response_first self query history tools tm w) as H.
  unfold wp in H. destruct H as [_ (messages & evs & Htr & Hev & _)].
  eexists _, _, evs. split; [exact Htr|].
  eapply Forall_impl; [exact Hev|].
  intros [req res|name input res]; simpl; [|done]. by intros [Hsys _].
Qed.

(** C8 as stated fails: with a summary supplied, the system string is
    not the static block directly followed by the summary. *)
Lemma system_is_not_block_then_summary :
  exists req res,
    trace (generate_response (mkAIGenerator (text_client "Response with history")
                                demo_model)
             "Follow up question" (Some "Previous conversation context")
             None None empty_world).2 = [EvApi req res]
    /\ req_params req !! "system"
       <> Some (VStr (SYSTEM_PROMPT +:+ "Previous conversation context")).
Proof.
  eexists _, _. split; [vm_compute; reflexivity|].
  intros H. vm_compute in H. discriminate H.
Qed.

Lemma base_params_unchanged_witness :
  let w' := (_handle_sequential_tool_execution
               (mkAIGenerator two_round_client demo_model)
               (mkResponse "tool_use" [search_block]) 1%nat ok_tools 2
               caller_world).2 in
  heap w' !! 1%nat
    = Some (ODict (plain_params (mkAIGenerator two_round_client demo_model)
                     0%nat (VStr SYSTEM_PROMPT)))
  /\ heap w' !! 0%nat = Some (OList [user_turn "Complex query"])
  /\ heap caller_world ⊆ heap w'.
Proof.
  apply (base_params_unchanged (mkAIGenerator two_round_client demo_model)
           (mkResponse "tool_use" [search_block]) 1%nat ok_tools 2
           caller_world
           (plain_params (mkAIGenerator two_round_client demo_model)
              0%nat (VStr SYSTEM_PROMPT))
           0%nat [user_turn "Complex query"]); reflexivity.
Defined.

(** * A dispatch that raises *)

Lemma handle_tool_error_reply error last_response :
  _handle_tool_error error last_response = error_reply last_response.
Proof.
  unfold _handle_tool_error, error_reply, _extract_text_response.
  destruct (first_text (content last_response)) as [text|]; [|done].
  destruct (String.eqb text EmptyString); [done|].
  by destruct (String.eqb text NO_TEXT).
Qed.

Lemma existsb_tool_use_middle pre name id input post :
  existsb is_tool_use (pre ++ ToolUseBlock name id input :: post) = true.
Proof. rewrite existsb_app. simpl. by rewrite orb_true_r. Qed.

(** C2, amended.  In a round in which a dispatch raises an exception (an
    instance of [Exception]) whose message is not empty, the engine
    dispatches nothing after the failing invocation, makes no further
    model call, and returns the text of the last reply's first text
    block when that text is neither empty nor the sentinel, and the
    fixed apology otherwise.  The reply is computed from the model's
    last reply alone, never from the exception's message. *)
Theorem tool_error_ends_round self bp tm max_rounds round_num rest messages
    current w ms pre name id input post results evs e :
  heap w !! messages = Some (OList ms) ->
  stop_reason current = "tool_use" ->
  content current = pre ++ ToolUseBlock name id input :: post ->
  dispatches tm (trace w) pre [] (results, None) evs ->
  tm (trace w ++ evs) name input = Raise e ->
  is_Exception e = true ->
  str e <> EmptyString ->
  exists found reply w',
    first_text_block (content current) found
    /\ rounds_loop self bp tm max_rounds (round_num :: rest) messages current w
       = (Ok reply, w')
    /\ trace w' = trace w ++ evs ++ [EvTool name input (Raise e)]
    /\ (found = Some reply /\ reply <> EmptyString /\ reply <> NO_TEXT
        \/ reply = APOLOGY
           /\ (found = None \/ found = Some EmptyString
               \/ found = Some NO_TEXT)).
Proof.
  intros Hms Hstop Hcontent Hpre Hraise Hexn Hmsg.
  cut (wp (rounds_loop self bp tm max_rounds (round_num :: rest) messages
             current) w
         (fun r w' => r = Ok (error_reply current)
                      /\ trace w' = trace w ++ evs ++ [EvTool name input (Raise e)])).
  { intros H. apply wp_run in H as (r & w' & Hrun & -> & Htr).
    exists (first_text (content current)), (error_reply current), w'.
    split; [apply first_text_block_spec|]. split; [done|]. split; [done|].
    unfold error_reply. destruct (first_text (content current)) as [text|];
      [|by right; split; [|left]].
    destruct (String.eqb_spec text EmptyString) as [->|Hne]; simpl.
    { right. split; [done|]. right. by left. }
    destruct (String.eqb_spec text NO_TEXT) as [->|Hns].
    { right. split; [done|]. right. by right. }
    by left. }
  cbn [rounds_loop].
  assert (_has_tool_use current = true) as ->.
  { unfold _has_tool_use. rewrite Hstop, Hcontent, existsb_tool_use_middle. done. }
  simpl. apply wp_bind, wp_list_append.
  2:{ intros Hno. by destruct (Hno ms). }
  pose proof (dispatches_prefix_raise tm (trace w) pre name id input post []
                results evs e Hpre Hraise Hexn) as Hd'.
  intros ms' _. apply wp_bind, wp_execute_tools; simpl.
  2:{ intros e' evs' He. rewrite Hcontent in He.
      by destruct (dispatches_not_escapes _ _ _ _ _ _ _ _ Hd' He). }
  intros out evs' Hd. rewrite Hcontent in Hd.
  destruct (dispatches_deterministic _ _ _ _ _ _ _ _ Hd Hd') as [-> ->].
  assert (error_truthy (Some (str e)) = true) as ->.
  { simpl. destruct (String.eqb_spec (str e) EmptyString); done. }
  apply wp_ret. simpl. split; [|done].
  by rewrite handle_tool_error_reply.
Qed.

Lemma tool_error_ends_round_witness :
  exists found reply w',
    first_text_block
      (content (mkResponse "tool_use" [search_block;
                                       TextBlock "Let me search.";
                                       outline_block])) found
    /\ rounds_loop (mkAIGenerator two_round_client demo_model) 1%nat
         (failing_tools "Tool execution failed") 2 [1] 0%nat
         (mkResponse "tool_use" [search_block; TextBlock "Let me search.";
                                 outline_block])
         caller_world
       = (Ok reply, w')
    /\ trace w'
       = trace caller_world ++ []
         ++ [EvTool "search_course_content" [("query", AStr "Python")]
               (Raise (PyExn "Exception" "Tool execution failed"))]
    /\ (found = Some reply /\ reply <> EmptyString /\ reply <> NO_TEXT
        \/ reply = APOLOGY
           /\ (found = None \/ found = Some EmptyString
               \/ found = Some NO_TEXT)).
Proof.
  apply (tool_error_ends_round (mkAIGenerator two_round_client demo_model)
           1%nat (failing_tools "Tool execution failed") 2 1 [] 0%nat
           (mkResponse "tool_use" [search_block; TextBlock "Let me search.";
                                   outline_block])
           caller_world [user_turn "Complex query"]
           [] "search_course_content" "tool_1"
           [("query", AStr "Python")]
           [TextBlock "Let me search."; outline_block] [] []
           (PyExn "Exception" "Tool execution failed")).
  - reflexivity.
  - reflexivity.
  - reflexivity.
  - constructor.
  - reflexivity.
  - reflexivity.
  - discriminate.
Defined.

(** C2 as stated fails: the apology that is returned contains the
    message of the exception that was raised. *)
Lemma apology_contains_error_message :
  (generate_response (mkAIGenerator (fixed_client (mkResponse "tool_use" [search_block]))
                        demo_model)
     "Search query" None (Some demo_catalog) (Some (failing_tools "error"))
     empty_world).1 = Ok APOLOGY
  /\ last (trace (generate_response
                    (mkAIGenerator (fixed_client (mkResponse "tool_use" [search_block]))
                       demo_model)
                    "Search query" None (Some demo_catalog)
                    (Some (failing_tools "error")) empty_world).2)
     = Some (EvTool "search_course_content" [("query", AStr "Python")]
               (Raise (PyExn "Exception" "error")))
  /\ contains "error" APOLOGY = true.
Proof. vm_compute. repeat split; reflexivity. Qed.

(** * A round that dispatches without error *)

Lemma loop_ready_frame bp messages d sys ms w :
  loop_ready bp messages d sys ms w ->
  ({[bp := ODict d]} : gmap loc Object) ⊆ heap w
  /\ ({[bp := ODict d]} : gmap loc Object) !! messages = None
  /\ ({[bp := ODict d]} : gmap loc Object) !! bp = Some (ODict d).
Proof.
  intros Hr. pose proof (loop_ready_distinct _ _ _ _ _ _ Hr) as Hne.
  destruct Hr as (Hbp & _). split; [|split].
  - apply map_subseteq_spec. intros l o Hl.
    apply lookup_singleton_Some in Hl as [<- <-]. done.
  - by apply lookup_singleton_ne.
  - apply lookup_singleton_eq.
Qed.

(** C5.  For a reply with tool-invocation blocks whose round dispatches
    without error, the engine dispatches every invocation block in the
    order listed, and the transcript sent with the next model call is the
    transcript so far, one assistant turn holding the full reply content,
    and one tool-result turn holding one entry per invocation block, in
    the same order, each with the id of its block. *)
Theorem round_appends_turns self bp tm max_rounds round_num rest messages
    current w d sys ms results evs :
  loop_ready bp messages d sys ms w ->
  _has_tool_use current = true ->
  dispatches tm (trace w) (content current) [] (results, None) evs ->
  exists outs req res evs_rest,
    length outs = length (tool_uses (content current))
    /\ evs = zip_with dispatch_event (tool_uses (content current)) outs
    /\ results = zip_with result_entry (tool_uses (content current)) outs
    /\ trace (rounds_loop self bp tm max_rounds (round_num :: rest) messages
                current w).2
       = trace w ++ evs ++ EvApi req res :: evs_rest
    /\ req_messages req
       = ms ++ [mkMessage "assistant" (BlockContent (content current));
                mkMessage "user" (ResultContent results)].
Proof.
  intros Hready Htool Hd.
  destruct (dispatches_success _ _ _ _ _ _ Hd) as (outs & Hlen & Hevs & Hres).
  cut (wp (rounds_loop self bp tm max_rounds (round_num :: rest) messages
             current) w
         (fun _ w' => exists req res evs_rest,
            trace w' = trace w ++ evs ++ EvApi req res :: evs_rest
            /\ req_messages req
               = ms ++ [assistant_turn current; tool_result_turn results])).
  { unfold wp. intros (req & res & evs_rest & Htr & Hreq).
    by exists outs, req, res, evs_rest. }
  eapply wp_round; [exact Hready|exact Htool| |].
  2:{ intros e evs' w' He.
      by destruct (dispatches_not_escapes _ _ _ _ _ _ _ _ Hd He). }
  intros results' error evs' Hd'.
  destruct (dispatches_deterministic _ _ _ _ _ _ _ _ Hd' Hd) as [[= -> ->] ->].
  simpl. intros d' w' Hd'' Htr' Hready'.
  set (req := mkRequest d' (ms ++ [assistant_turn current; tool_result_turn results])) in *.
  destruct (client self (trace w ++ evs) req) as [resp|e] eqn:Hresp.
  2:{ exists req, (Raise e), []. done. }
  destruct (round_num =? max_rounds).
  { exists req, (Ok resp), []. done. }
  destruct (loop_ready_frame _ _ _ _ _ _ Hready') as (Hsub & Hm & Hb).
  eapply wp_mono;
    [apply (rounds_loop_any self bp tm max_rounds rest messages resp w'
              {[bp := ODict d]} d Hsub Hm Hb)|].
  simpl. intros r w'' [_ (evs'' & Htr'' & _)].
  exists req, (Ok resp), evs''. split; [|done].
  by rewrite Htr'', Htr', <- !app_assoc.
Qed.

Lemma round_appends_turns_witness :
  exists outs req res evs_rest,
    length outs = length (tool_uses [search_block; outline_block])
    /\ [EvTool "search_course_content" [("query", AStr "Python")] (Ok "Tool result");
        EvTool "get_course_outline" [("course_name", AStr "Python Basics")]
          (Ok "Tool result")]
       = zip_with dispatch_event (tool_uses [search_block; outline_block]) outs
    /\ [mkToolResult "tool_1" "Tool result"; mkToolResult "tool_2" "Tool result"]
       = zip_with result_entry (tool_uses [search_block; outline_block]) outs
    /\ trace (rounds_loop (mkAIGenerator two_round_client demo_model) 1%nat
                ok_tools 2 [1; 2] 0%nat
                (mkResponse "tool_use" [search_block; outline_block])
                caller_world).2
       = trace caller_world
         ++ [EvTool "search_course_content" [("query", AStr "Python")] (Ok "Tool result");
             EvTool "get_course_outline" [("course_name", AStr "Python Basics")]
               (Ok "Tool result")]
         ++ EvApi req res :: evs_rest
    /\ req_messages req
       = [user_turn "Complex query"]
         ++ [mkMessage "assistant" (BlockContent [search_block; outline_block]);
             mkMessage "user"
               (ResultContent [mkToolResult "tool_1" "Tool result";
                               mkToolResult "tool_2" "Tool result"])].
Proof.
  apply (round_appends_turns (mkAIGenerator two_round_client demo_model) 1%nat
           ok_tools 2 1 [2] 0%nat
           (mkResponse "tool_use" [search_block; outline_block]) caller_world
           (plain_params (mkAIGenerator two_round_client demo_model) 0%nat
              (VStr SYSTEM_PROMPT))
           (VStr SYSTEM_PROMPT) [user_turn "Complex query"]).
  - repeat split; try reflexivity. intros l. vm_compute. discriminate.
  - reflexivity.
  - repeat econstructor.
Defined.

(** * Offering the catalog *)

Lemma initial_params_catalog self messages history tools :
  offers_catalog_iff tools (initial_params self messages history tools).
Proof.
  unfold initial_params, offers_catalog_iff, catalog_value.
  destruct tools as [[|t ts]|]; simpl.
  - apply plain_params_offers_nothing.
  - apply with_tools_offers.
  - apply plain_params_offers_nothing.
Qed.

(** Both places that build a request, the initial one in
    [generate_response] and [_make_api_call] used in the rounds, include
    the catalog they are handed together with automatic tool choice
    exactly when that catalog is a non-empty list; when it is absent or
    empty the request carries neither field. *)
Theorem catalog_offered_iff_nonempty self query history tools tm messages
    sys ms w :
  heap w !! messages = Some (OList ms) ->
  (exists req res evs,
     trace (generate_response self query history tools tm w).2
       = trace w ++ EvApi req res :: evs
     /\ offers_catalog_iff tools (req_params req))
  /\ (exists req,
        trace (_make_api_call self messages sys (VTools <$> tools) w).2
        = trace w
          ++ [EvApi req (_make_api_call self messages sys (VTools <$> tools) w).1]
        /\ req_messages req = ms
        /\ offers_catalog_iff tools (req_params req)).
Proof.
  intros Hms. split.
  - pose proof (generate_response_first self query history tools tm w) as H.
    unfold wp in H. destruct H as [_ (m & evs & Htr & _)].
    eexists _, _, evs. split; [exact Htr|]. apply initial_params_catalog.
  - cut (wp (_make_api_call self messages sys (VTools <$> tools)) w
           (fun r w' => exists req,
              trace w' = trace w ++ [EvApi req r]
              /\ req_messages req = ms
              /\ offers_catalog_iff tools (req_params req))).
    { unfold wp. intros (req & Htr & Hm & Hoff). by exists req. }
    apply wp_make_api_call.
    + intros ms' d w' Hms' _ Hd req Htr. exists req.
      split; [done|]. split; [simpl; congruence|]. simpl.
      destruct Hd as [[-> Hempty]|(v & Hv & -> & Hne)].
      * destruct tools as [[|t ts]|]; simpl;
          try apply plain_params_offers_nothing.
        by specialize (Hempty _ eq_refl).
      * destruct tools as [[|t ts]|]; simpl in *; simplify_eq.
        -- by destruct (Hne [] eq_refl).
        -- apply with_tools_offers.
    + intros [Hno|[l Hl]]; [by destruct (Hno ms)|].
      by destruct tools.
Qed.

Lemma catalog_offered_iff_nonempty_witness :
  (exists req res evs,
     trace (generate_response (mkAIGenerator (text_client "Direct response") demo_model)
              "What is 2+2?" None (Some demo_catalog) None caller_world).2
       = trace caller_world ++ EvApi req res :: evs
     /\ offers_catalog_iff (Some demo_catalog) (req_params req))
  /\ (exists req,
        trace (_make_api_call
                 (mkAIGenerator (text_client "Direct response") demo_model)
                 0%nat (VStr SYSTEM_PROMPT) (VTools <$> Some demo_catalog)
                 caller_world).2
        = trace caller_world
          ++ [EvApi req
                (_make_api_call
                   (mkAIGenerator (text_client "Direct response") demo_model)
                   0%nat (VStr SYSTEM_PROMPT) (VTools <$> Some demo_catalog)
                   caller_world).1]
        /\ req_messages req = [user_turn "Complex query"]
        /\ offers_catalog_iff (Some demo_catalog) (req_params req)).
Proof.
  apply (catalog_offered_iff_nonempty
           (mkAIGenerator (text_client "Direct response") demo_model)
           "What is 2+2?" None (Some demo_catalog) None 0%nat
           (VStr SYSTEM_PROMPT) [user_turn "Complex query"] caller_world).
  reflexivity.
Defined.

(** * The direct return *)

(** C9, amended.  When the reply does not stop for a tool, or no
    dispatcher was supplied, [generate_response] makes no further call
    and evaluates [response.content[0].text] without the sentinel
    fallback: the result is that text when the first block is a text
    block, an [IndexError] when the content is empty and an
    [AttributeError] when the first block is a tool invocation. *)
Theorem direct_return_needs_leading_text self query history tools tm w resp :
  (forall req, client self (trace w) req = Ok resp) ->
  tm = None \/ String.eqb (stop_reason resp) "tool_use" = false ->
  exists req h,
    generate_response self query history tools tm w
    = (match content resp with
       | [] => Raise (PyExn "IndexError" "list index out of range")
       | TextBlock text :: _ => Ok text
       | ToolUseBlock _ _ _ :: _ => Raise (PyExn "AttributeError" "text")
       end,
       mkWorld h (trace w ++ [EvApi req (Ok resp)])).
Proof.
  intros Hclient Hdirect.
  destruct (generate_response_direct self query history tools tm w resp
              Hclient Hdirect) as (req & h & Hrun).
  exists req, h. by rewrite Hrun, content0_text_run.
Qed.

Lemma direct_return_needs_leading_text_witness :
  exists req h,
    generate_response
      (mkAIGenerator (fixed_client (mkResponse "tool_use" [search_block])) demo_model)
      "Search query" None (Some demo_catalog) None empty_world
    = (match content (mkResponse "tool_use" [search_block]) with
       | [] => Raise (PyExn "IndexError" "list index out of range")
       | TextBlock text :: _ => Ok text
       | ToolUseBlock _ _ _ :: _ => Raise (PyExn "AttributeError" "text")
       end,
       mkWorld h (trace empty_world
                  ++ [EvApi req (Ok (mkResponse "tool_use" [search_block]))])).
Proof.
  apply (direct_return_needs_leading_text
           (mkAIGenerator (fixed_client (mkResponse "tool_use" [search_block]))
              demo_model)
           "Search query" None (Some demo_catalog) None empty_world
           (mkResponse "tool_use" [search_block])).
  - reflexivity.
  - left. reflexivity.
Defined.

(** C9 as stated fails on both of its cases: a reply that stops for a
    tool with no dispatcher supplied is answered with its leading text,
    and an empty reply that stops for a tool with a dispatcher supplied
    is answered with the sentinel. *)
Lemma direct_return_does_not_always_fail :
  (generate_response
     (mkAIGenerator
        (fixed_client (mkResponse "tool_use" [TextBlock "Let me search."; search_block]))
        demo_model)
     "Search query" None (Some demo_catalog) None empty_world).1
  = Ok "Let me search."
  /\ (generate_response
        (mkAIGenerator (fixed_client (mkResponse "tool_use" [])) demo_model)
        "Search query" None (Some demo_catalog) (Some ok_tools) empty_world).1
     = Ok NO_TEXT.
Proof. vm_compute. split; reflexivity. Qed.

(** C4 at the failing input: a reply with no content that does not stop
    for a tool.  One model call is made, and the direct return raises
    where [_extract_text_response] gives the sentinel. *)
Lemma empty_reply_raises :
  (generate_response
     (mkAIGenerator (fixed_client (mkResponse "end_turn" [])) demo_model)
     "What is Python?" None None None empty_world).1
  = Raise (PyExn "IndexError" "list index out of range")
  /\ api_calls
       (trace (generate_response
                 (mkAIGenerator (fixed_client (mkResponse "end_turn" [])) demo_model)
                 "What is Python?" None None None empty_world).2) = 1%nat
  /\ _extract_text_response (mkResponse "end_turn" []) = NO_TEXT.
Proof. vm_compute. repeat split; reflexivity. Qed.

(** * The search capability: the empty outcome *)

Lemma string_app_assoc (a b c : string) : (a +:+ b) +:+ c = a +:+ (b +:+ c).
Proof.
  induction a as [|x a IH]; [done|].
  change (String x ((a +:+ b) +:+ c) = String x (a +:+ (b +:+ c))).
  by rewrite IH.
Qed.

(** C7.  A search that matches nothing while a course-name filter and a
    lesson-number filter are both active returns exactly
    "No relevant content found in course '<name>' in lesson <n>." and
    records no sources. *)
Theorem no_results_with_both_filters store query name n :
  SearchCapability.error
    (SearchCapability.search store query (Some name) (Some n)) = None ->
  SearchCapability.documents
    (SearchCapability.search store query (Some name) (Some n)) = [] ->
  SearchCapability.execute store query (Some name) (Some n)
  = ("No relevant content found in course '" +:+ name +:+ "' in lesson "
     +:+ pretty n +:+ ".", []).
Proof.
  intros Herr Hdocs. unfold SearchCapability.execute.
  rewrite Herr, Hdocs. unfold SearchCapability.no_results_message.
  by rewrite !string_app_assoc.
Qed.

Lemma no_results_with_both_filters_witness :
  SearchCapability.execute SearchCapability.empty_store "topic"
    (Some "Course") (Some 1)
  = ("No relevant content found in course 'Course' in lesson 1.", []).
Proof.
  exact (no_results_with_both_filters SearchCapability.empty_store "topic"
           "Course" 1 eq_refl eq_refl).
Defined.

Lemma generate_response_max_rounds_witness :
  exists w' evs final_req final_resp found,
    first_text_block (content final_resp) found
    /\ generate_response (mkAIGenerator two_round_client demo_model)
         "Complex query" None (Some demo_catalog) (Some ok_tools) empty_world
       = (Ok (default NO_TEXT found), w')
    /\ trace w' = trace empty_world ++ evs ++ [EvApi final_req (Ok final_resp)]
    /\ api_calls (evs ++ [EvApi final_req (Ok final_resp)]) = 3%nat
    /\ tool_rounds (evs ++ [EvApi final_req (Ok final_resp)]) = 2%nat
    /\ offers_nothing (req_params final_req)
    /\ length (req_messages final_req) = 5%nat.
Proof.
  apply (generate_response_max_rounds
           (mkAIGenerator two_round_client demo_model)
           "Complex query" None (Some demo_catalog) ok_tools empty_world).
  - intros tr req H. simpl in *. unfold two_round_client.
    apply Nat.ltb_lt in H. rewrite H. eexists. split; reflexivity.
  - intros tr req H. simpl in *. unfold two_round_client.
    rewrite H. eexists. reflexivity.
  - intros tr name input. eexists. reflexivity.
Defined.

Example two_round_run :
  (generate_response (mkAIGenerator two_round_client demo_model)
     "Complex query" None (Some demo_catalog) (Some ok_tools) empty_world).1
  = Ok "Final answer after 2 rounds".
Proof. vm_compute. reflexivity. Qed.

(** * Further properties of the engine *)

Lemma tool_uses_middle pre name id input post :
  tool_uses (pre ++ ToolUseBlock name id input :: post)
  = tool_uses pre ++ (name, id, input) :: tool_uses post.
Proof. induction pre as [|[]]; simpl; congruence. Qed.

Lemma zip_with_shorter {A B C} (f : A -> B -> C) us u rest outs :
  length outs = length us ->
  zip_with f (us ++ u :: rest) outs = zip_with f us outs.
Proof.
  revert outs. induction us as [|x us IH]; intros [|o outs] Hlen; simpl in *;
    try discriminate; [done|]. f_equal. apply IH. lia.
Qed.

(** [_execute_tools_for_response] never touches the heap, and it catches
    every instance of [Exception] that a dispatch raises: the exception
    ends the walk over the reply and its message comes back as the
    error string, next to the entries collected before it.  The entries
    are those of a prefix of the reply's invocation blocks, in order;
    all of them when no error is reported.  Only an exception that is no
    instance of [Exception] leaves the function, unchanged, from the
    dispatch that raised it. *)
Theorem execute_tools_outcome response tm w :
  exists r evs outs,
    _execute_tools_for_response response tm w
      = (r, mkWorld (heap w) (trace w ++ evs))
    /\ match r with
       | Ok (results, None) =>
           length outs = length (tool_uses (content response))
           /\ evs = zip_with dispatch_event (tool_uses (content response)) outs
           /\ results
              = zip_with result_entry (tool_uses (content response)) outs
       | Ok (results, Some msg) =>
           exists name id input e,
             tool_uses (content response) !! length outs
             = Some (name, id, input)
             /\ evs = zip_with dispatch_event (tool_uses (content response)) outs
                      ++ [EvTool name input (Raise e)]
             /\ results
                = zip_with result_entry (tool_uses (content response)) outs
             /\ is_Exception e = true
             /\ msg = str e
       | Raise e =>
           exists name id input,
             tool_uses (content response) !! length outs
             = Some (name, id, input)
             /\ evs = zip_with dispatch_event (tool_uses (content response)) outs
                      ++ [EvTool name input (Raise e)]
             /\ is_Exception e = false
       end.
Proof.
  unfold _execute_tools_for_response.
  destruct (execute_blocks_dispatches tm (content response) [] w)
    as [([results [msg|]] & evs & Hrun & Hd)|(e & evs & Hrun & Hd)].
  - destruct (dispatches_failure _ _ _ _ _ _ _ Hd)
      as (pre & name & id & input & post & outs & e & Hc & Hlen & Hevs & _
          & He & Hmsg & Hres).
    exists (Ok (results, Some msg)), evs, outs. split; [done|].
    exists name, id, input, e.
    rewrite Hc, tool_uses_middle, !zip_with_shorter by done.
    split; [by apply list_lookup_middle|done].
  - destruct (dispatches_success _ _ _ _ _ _ Hd) as (outs & Hlen & Hevs & Hres).
    by exists (Ok (results, None)), evs, outs.
  - destruct (dispatch_escapes_last _ _ _ _ _ Hd)
      as (He & pre & name & id & input & post & outs & Hc & Hlen & Hevs & _).
    exists (Raise e), evs, outs. split; [done|].
    exists name, id, input.
    rewrite Hc, tool_uses_middle, !zip_with_shorter by done.
    split; [by apply list_lookup_middle|done].
Qed.

Lemma first_text_after_tools pre :
  Forall (fun b => is_tool_use b = true) pre ->
  forall rest, first_text (pre ++ rest) = first_text rest.
Proof. induction 1 as [|[] ? ? ?]; intros rest; simpl in *; auto; discriminate. Qed.

(** [_extract_text_response] skips tool-invocation blocks: it returns
    the text of the first text block whatever follows it and whatever
    the stop reason, and the sentinel when the reply holds invocation
    blocks only. *)
Theorem extract_text_skips_tool_blocks stop pre text post :
  Forall (fun b => is_tool_use b = true) pre ->
  _extract_text_response (mkResponse stop (pre ++ TextBlock text :: post)) = text
  /\ _extract_text_response (mkResponse stop pre) = NO_TEXT.
Proof.
  intros Hpre. unfold _extract_text_response. simpl.
  rewrite (first_text_after_tools pre Hpre). simpl. split; [done|].
  rewrite <- (app_nil_r pre), (first_text_after_tools pre Hpre). done.
Qed.

Lemma extract_text_skips_tool_blocks_witness :
  _extract_text_response
    (mkResponse "tool_use"
       ([search_block; outline_block] ++ TextBlock "Here it is." :: [search_block]))
  = "Here it is."
  /\ _extract_text_response (mkResponse "tool_use" [search_block; outline_block])
     = NO_TEXT.
Proof.
  apply (extract_text_skips_tool_blocks "tool_use" [search_block; outline_block]
           "Here it is." [search_block]).
  repeat constructor.
Defined.

(** [_handle_tool_error] never answers with an empty string or with the
    sentinel, and its answer does not depend on the error string. *)
Theorem handle_tool_error_never_blank error error' last_response :
  _handle_tool_error error last_response <> EmptyString
  /\ _handle_tool_error error last_response <> NO_TEXT
  /\ _handle_tool_error error last_response
     = _handle_tool_error error' last_response.
Proof.
  rewrite !handle_tool_error_reply. unfold error_reply.
  split; [|split; [|done]].
  - destruct (first_text (content last_response)) as [text|]; [|done].
    destruct (String.eqb_spec text EmptyString); simpl; [done|].
    by destruct (String.eqb text NO_TEXT).
  - destruct (first_text (content last_response)) as [text|]; [|done].
    destruct (String.eqb text EmptyString); simpl; [done|].
    by destruct (String.eqb_spec text NO_TEXT).
Qed.

(** The legacy entry point [_handle_tool_execution] runs one round: for a
    reply that requests tools and whose dispatches return, it makes one
    model call, without catalog or tool choice, on the transcript
    extended by the assistant turn and the tool-result turn, and returns
    the text extracted from the reply to that call. *)
Theorem legacy_handler_single_round self initial bp tm w d src sys ms
    results evs resp :
  heap w !! bp = Some (ODict d) ->
  d !! "messages" = Some (VList src) ->
  heap w !! src = Some (OList ms) ->
  d !! "system" = Some sys ->
  (forall l, d !! "tools" <> Some (VList l)) ->
  _has_tool_use initial = true ->
  dispatches tm (trace w) (content initial) [] (results, None) evs ->
  (forall req, client self (trace w ++ evs) req = Ok resp) ->
  exists w' req,
    _handle_tool_execution self initial bp tm w
      = (Ok (_extract_text_response resp), w')
    /\ trace w' = trace w ++ evs ++ [EvApi req (Ok resp)]
    /\ offers_nothing (req_params req)
    /\ req_params req !! "system" = Some sys
    /\ req_messages req
       = ms ++ [mkMessage "assistant" (BlockContent (content initial));
                mkMessage "user" (ResultContent results)].
Proof.
  intros Hbp Hsrc Hms Hsys Htools Huse Hd Hclient.
  cut (wp (_handle_tool_execution self initial bp tm) w
         (fun r w' => exists req,
            r = Ok (_extract_text_response resp)
            /\ trace w' = trace w ++ evs ++ [EvApi req (Ok resp)]
            /\ offers_nothing (req_params req)
            /\ req_params req !! "system" = Some sys
            /\ req_messages req
               = ms ++ [assistant_turn initial; tool_result_turn results])).
  { intros H. apply wp_run in H as (r & w' & Hrun & req & -> & H).
    by exists w', req. }
  unfold _handle_tool_execution.
  eapply wp_handle_sequential; try done.
  intros messages w1 Hfresh Hsub Htr Hready.
  change (seqZ 1 1) with [1].
  eapply wp_round; [exact Hready|exact Huse| |].
  2:{ intros e evs' w' He. rewrite Htr in He.
      by destruct (dispatches_not_escapes _ _ _ _ _ _ _ _ Hd He). }
  intros results' error evs' Hd'. rewrite Htr in Hd'.
  destruct (dispatches_deterministic _ _ _ _ _ _ _ _ Hd' Hd) as [[= -> ->] ->].
  simpl. intros d' w' Hbuilt Htr' Hready'.
  rewrite Htr in *. rewrite Hclient in *.
  eexists. split; [done|]. split; [exact Htr'|]. simpl.
  rewrite (built_from_none _ _ _ _ Hbuilt).
  split; [apply plain_params_offers_nothing|].
  split; [apply plain_params_system|done].
Qed.

Lemma legacy_handler_single_round_witness :
  exists w' req,
    _handle_tool_execution (mkAIGenerator (text_client "Python is a programming language.")
                              demo_model)
      (mkResponse "tool_use" [search_block]) 1%nat ok_tools caller_world
      = (Ok (_extract_text_response
               (mkResponse "end_turn" [TextBlock "Python is a programming language."])),
         w')
    /\ trace w'
       = trace caller_world
         ++ [EvTool "search_course_content" [("query", AStr "Python")] (Ok "Tool result")]
         ++ [EvApi req (Ok (mkResponse "end_turn"
                              [TextBlock "Python is a programming language."]))]
    /\ offers_nothing (req_params req)
    /\ req_params req !! "system" = Some (VStr SYSTEM_PROMPT)
    /\ req_messages req
       = [user_turn "Complex query"]
         ++ [mkMessage "assistant" (BlockContent (content (mkResponse "tool_use" [search_block])));
             mkMessage "user" (ResultContent [mkToolResult "tool_1" "Tool result"])].
Proof.
  apply (legacy_handler_single_round
           (mkAIGenerator (text_client "Python is a programming language.") demo_model)
           (mkResponse "tool_use" [search_block]) 1%nat ok_tools caller_world
           (plain_params (mkAIGenerator two_round_client demo_model) 0%nat
              (VStr SYSTEM_PROMPT))
           0%nat (VStr SYSTEM_PROMPT) [user_turn "Complex query"]).
  - reflexivity.
  - reflexivity.
  - reflexivity.
  - reflexivity.
  - intros l. vm_compute. discriminate.
  - reflexivity.
  - repeat econstructor.
  - reflexivity.
Defined.

(** An instance of [Exception] whose message is the empty string is not
    treated as a failure: [if error:] is false for it.  The round goes on as if it had
    succeeded, the blocks after the failing one are not dispatched, and
    the model is called again on a tool-result turn that holds only the
    entries collected before the failure. *)
Theorem empty_error_message_continues self bp tm max_rounds round_num rest
    messages current w d sys ms pre name id input post results evs e :
  loop_ready bp messages d sys ms w ->
  stop_reason current = "tool_use" ->
  content current = pre ++ ToolUseBlock name id input :: post ->
  dispatches tm (trace w) pre [] (results, None) evs ->
  tm (trace w ++ evs) name input = Raise e ->
  is_Exception e = true ->
  str e = EmptyString ->
  exists req res evs_rest,
    trace (rounds_loop self bp tm max_rounds (round_num :: rest) messages
             current w).2
    = trace w ++ evs ++ EvTool name input (Raise e) :: EvApi req res :: evs_rest
    /\ req_messages req
       = ms ++ [mkMessage "assistant" (BlockContent (content current));
                mkMessage "user" (ResultContent results)].
Proof.
  intros Hready Hstop Hcontent Hpre Hraise Hexn Hmsg.
  pose proof (dispatches_prefix_raise tm (trace w) pre name id input post []
                results evs e Hpre Hraise Hexn) as Hd.
  rewrite <- Hcontent in Hd.
  cut (wp (rounds_loop self bp tm max_rounds (round_num :: rest) messages
             current) w
         (fun _ w' => exists req res evs_rest,
            trace w' = trace w ++ evs ++ EvTool name input (Raise e)
                       :: EvApi req res :: evs_rest
            /\ req_messages req
               = ms ++ [assistant_turn current; tool_result_turn results])).
  { unfold wp. intros (req & res & evs_rest & Htr & Hreq).
    by exists req, res, evs_rest. }
  eapply wp_round; [exact Hready| | |].
  { unfold _has_tool_use. rewrite Hstop, Hcontent, existsb_tool_use_middle. done. }
  2:{ intros e' evs' w' He.
      by destruct (dispatches_not_escapes _ _ _ _ _ _ _ _ Hd He). }
  intros results' error evs' Hd'.
  destruct (dispatches_deterministic _ _ _ _ _ _ _ _ Hd' Hd) as [[= -> ->] ->].
  rewrite Hmsg. simpl. intros d' w' Hd'' Htr' Hready'.
  set (req := mkRequest d' (ms ++ [assistant_turn current; tool_result_turn results])) in *.
  assert (Hshape : forall res rest,
    trace w ++ (evs ++ [EvTool name input (Raise e)]) ++ EvApi req res :: rest
    = trace w ++ evs ++ EvTool name input (Raise e) :: EvApi req res :: rest).
  { intros. by rewrite <- app_assoc. }
  destruct (client self _ req) as [resp|e'].
  2:{ exists req, (Raise e'), []. split; [|done]. rewrite Htr'. apply Hshape. }
  destruct (round_num =? max_rounds).
  { exists req, (Ok resp), []. split; [|done]. rewrite Htr'. apply Hshape. }
  destruct (loop_ready_frame _ _ _ _ _ _ Hready') as (Hsub & Hm & Hb).
  eapply wp_mono;
    [apply (rounds_loop_any self bp tm max_rounds rest messages resp w'
              {[bp := ODict d]} d Hsub Hm Hb)|].
  simpl. intros r w'' [_ (evs'' & Hw'' & _)].
  exists req, (Ok resp), evs''. split; [|done].
  rewrite Hw'', Htr', <- Hshape, <- !app_assoc. done.
Qed.

Lemma empty_error_message_continues_witness :
  exists req res evs_rest,
    trace (rounds_loop (mkAIGenerator two_round_client demo_model) 1%nat
             (failing_tools EmptyString) 2 [1; 2] 0%nat
             (mkResponse "tool_use" [search_block; outline_block])
             caller_world).2
    = trace caller_world ++ []
      ++ EvTool "search_course_content" [("query", AStr "Python")]
           (Raise (PyExn "Exception" EmptyString))
         :: EvApi req res :: evs_rest
    /\ req_messages req
       = [user_turn "Complex query"]
         ++ [mkMessage "assistant"
               (BlockContent (content (mkResponse "tool_use"
                                         [search_block; outline_block])));
             mkMessage "user" (ResultContent [])].
Proof.
  apply (empty_error_message_continues
           (mkAIGenerator two_round_client demo_model) 1%nat
           (failing_tools EmptyString) 2 1 [2] 0%nat
           (mkResponse "tool_use" [search_block; outline_block]) caller_world
           (plain_params (mkAIGenerator two_round_client demo_model) 0%nat
              (VStr SYSTEM_PROMPT))
           (VStr SYSTEM_PROMPT) [user_turn "Complex query"]
           [] "search_course_content" "tool_1" [("query", AStr "Python")]
           [outline_block] [] [] (PyExn "Exception" EmptyString)).
  - repeat split; try reflexivity. intros l. vm_compute. discriminate.
  - reflexivity.
  - reflexivity.
  - constructor.
  - reflexivity.
  - reflexivity.
  - reflexivity.
Defined.

(** Without a tool request in the reply it is handed, or with a round
    budget of zero or less, [_handle_sequential_tool_execution] calls
    neither the dispatcher nor the model and returns the text extracted
    from that reply (the sentinel if it has none). *)
Theorem handler_without_tool_use self initial bp tm max_rounds w d src ms :
  heap w !! bp = Some (ODict d) ->
  d !! "messages" = Some (VList src) ->
  heap w !! src = Some (OList ms) ->
  max_rounds <= 0 \/ _has_tool_use initial = false ->
  exists w',
    _handle_sequential_tool_execution self initial bp tm max_rounds w
      = (Ok (_extract_text_response initial), w')
    /\ trace w' = trace w.
Proof.
  intros Hbp Hsrc Hms Hcase.
  cut (wp (_handle_sequential_tool_execution self initial bp tm max_rounds) w
         (fun r w' => r = Ok (_extract_text_response initial)
                      /\ trace w' = trace w)).
  { intros H. apply wp_run in H as (r & w' & Hrun & -> & Htr). by exists w'. }
  unfold _handle_sequential_tool_execution.
  apply wp_bind, wp_dict_getitem.
  2:{ intros Hno. by destruct (Hno d (VList src)). }
  intros m v Hm Hv. assert (m = d) as -> by congruence.
  assert (v = VList src) as -> by congruence.
  apply wp_bind, wp_list_copy.
  2:{ intros Hno. by destruct (Hno ms). }
  intros ms' messages _ _.
  destruct Hcase as [Hzero|Hno].
  - rewrite seqZ_nil by done. by apply wp_ret.
  - destruct (seqZ 1 max_rounds) as [|k rest]; [by apply wp_ret|].
    cbn [rounds_loop]. rewrite Hno. by apply wp_ret.
Qed.

Lemma handler_without_tool_use_witness :
  exists w',
    _handle_sequential_tool_execution
      (mkAIGenerator two_round_client demo_model)
      (mkResponse "tool_use" [search_block]) 1%nat ok_tools 0 caller_world
      = (Ok (_extract_text_response (mkResponse "tool_use" [search_block])), w')
    /\ trace w' = trace caller_world.
Proof.
  apply (handler_without_tool_use (mkAIGenerator two_round_client demo_model)
           (mkResponse "tool_use" [search_block]) 1%nat ok_tools 0 caller_world
           (plain_params (mkAIGenerator two_round_client demo_model) 0%nat
              (VStr SYSTEM_PROMPT))
           0%nat [user_turn "Complex query"]).
  - reflexivity.
  - reflexivity.
  - reflexivity.
  - left. lia.
Defined.

Lemma built_from_catalog self messages sys tools d :
  built_from self messages sys (catalog_value tools) d ->
  offers_catalog_iff tools d.
Proof.
  unfold catalog_value, offers_catalog_iff.
  destruct tools as [[|t ts]|]; simpl.
  - intros ->%built_from_none. apply plain_params_offers_nothing.
  - intros [[_ Hempty]|(v & [= <-] & -> & _)].
    + by specialize (Hempty _ eq_refl).
    + apply with_tools_offers.
  - intros ->%built_from_none. apply plain_params_offers_nothing.
Qed.

(** The rounds stop as soon as the model answers without requesting a
    tool: when only the first reply requests tools, [generate_response]
    dispatches that reply's blocks, calls the model a second time, still
    offering the catalog it was given, on a three-turn transcript, and
    returns the text extracted from the second reply. *)
Theorem stops_when_model_answers self query history tools tm w resp1 resp2 :
  (forall tr req, api_calls tr = api_calls (trace w) ->
     client self tr req = Ok resp1) ->
  (forall tr req, api_calls tr = S (api_calls (trace w)) ->
     client self tr req = Ok resp2) ->
  _has_tool_use resp1 = true ->
  _has_tool_use resp2 = false ->
  (forall tr name input, exists out, tm tr name input = Ok out) ->
  exists w' req1 outs req2,
    generate_response self query history tools (Some tm) w
      = (Ok (_extract_text_response resp2), w')
    /\ trace w'
       = trace w ++ EvApi req1 (Ok resp1)
         :: zip_with dispatch_event (tool_uses (content resp1)) outs
         ++ [EvApi req2 (Ok resp2)]
    /\ length outs = length (tool_uses (content resp1))
    /\ offers_catalog_iff tools (req_params req2)
    /\ req_messages req2
       = [mkMessage "user" (TextContent query);
          mkMessage "assistant" (BlockContent (content resp1));
          mkMessage "user"
            (ResultContent
               (zip_with result_entry (tool_uses (content resp1)) outs))].
Proof.
  intros Hfirst Hsecond Huse1 Huse2 Htm.
  cut (wp (generate_response self query history tools (Some tm)) w
         (fun r w' => exists req1 outs req2,
            r = Ok (_extract_text_response resp2)
            /\ trace w'
               = trace w ++ EvApi req1 (Ok resp1)
                 :: zip_with dispatch_event (tool_uses (content resp1)) outs
                 ++ [EvApi req2 (Ok resp2)]
            /\ length outs = length (tool_uses (content resp1))
            /\ offers_catalog_iff tools (req_params req2)
            /\ req_messages req2
               = [user_turn query; assistant_turn resp1;
                  tool_result_turn
                    (zip_with result_entry (tool_uses (content resp1)) outs)])).
  { intros H. apply wp_run in H as (r & w' & Hrun & rq1 & outs & rq2 & -> & H).
    by exists w', rq1, outs, rq2. }
  unfold generate_response.
  apply (wp_generate_response_call self query history tools w
           (fun api_params response =>
              if String.eqb (stop_reason response) "tool_use" then
                _handle_sequential_tool_execution self response api_params tm 2
              else content0_text response)).
  intros messages p h Hm Hsub Hp Hmsgs req res. subst res.
  rewrite (Hfirst (trace w) req eq_refl).
  rewrite (has_tool_use_stop_reason _ Huse1).
  eapply (wp_handle_sequential self resp1 p tm 2 _
            (initial_params self messages history tools) messages
            (VStr (system_content history))); cbn [heap trace];
    [done|apply initial_params_messages|done|apply initial_params_system| |].
  { intros l. rewrite initial_params_tools. apply catalog_value_not_list. }
  intros messages' w1 Hfresh Hsub1 Htr1 Hready.
  change (seqZ 1 2) with [1; 2].
  eapply wp_round; [exact Hready|exact Huse1| |].
  2:{ intros e evs w' He. by destruct (dispatch_escapes_returns _ _ _ _ _ Htm He). }
  intros results error evs Hd.
  assert (error = None) as -> by (eapply dispatches_returns; eauto).
  cbn [error_truthy].
  destruct (dispatches_success _ _ _ _ _ _ Hd) as (outs & Hlen & -> & ->).
  pose proof (dispatches_all_tool _ _ _ _ _ _ Hd) as Htools.
  intros d' w' Hbuilt Htr' Hready'.
  rewrite initial_params_tools in Hbuilt.
  assert (Hcount : api_calls (trace w1 ++ zip_with dispatch_event
                                 (tool_uses (content resp1)) outs)
                   = S (api_calls (trace w))).
  { rewrite Htr1, !api_calls_app, (api_calls_tools _ Htools). simpl. lia. }
  cbv zeta in *. rewrite (Hsecond _ _ Hcount) in *.
  cbn [rounds_loop]. rewrite Huse2. apply wp_ret.
  eexists req, outs, _. split; [done|].
  split. { rewrite Htr', Htr1, <- !app_assoc. done. }
  split; [done|]. split; [by eapply built_from_catalog|done].
Qed.

Lemma stops_when_model_answers_witness :
  exists w' req1 outs req2,
    generate_response (mkAIGenerator one_round_client demo_model)
      "What is Python?" None (Some demo_catalog) (Some ok_tools) empty_world
      = (Ok (_extract_text_response
               (mkResponse "end_turn" [TextBlock "Python is a programming language."])),
         w')
    /\ trace w'
       = trace empty_world
         ++ EvApi req1 (Ok (mkResponse "tool_use" [search_block]))
         :: zip_with dispatch_event
              (tool_uses (content (mkResponse "tool_use" [search_block]))) outs
         ++ [EvApi req2 (Ok (mkResponse "end_turn"
                               [TextBlock "Python is a programming language."]))]
    /\ length outs
       = length (tool_uses (content (mkResponse "tool_use" [search_block])))
    /\ offers_catalog_iff (Some demo_catalog) (req_params req2)
    /\ req_messages req2
       = [mkMessage "user" (TextContent "What is Python?");
          mkMessage "assistant"
            (BlockContent (content (mkResponse "tool_use" [search_block])));
          mkMessage "user"
            (ResultContent
               (zip_with result_entry
                  (tool_uses (content (mkResponse "tool_use" [search_block])))
                  outs))].
Proof.
  apply (stops_when_model_answers (mkAIGenerator one_round_client demo_model)
           "What is Python?" None (Some demo_catalog) ok_tools empty_world
           (mkResponse "tool_use" [search_block])
           (mkResponse "end_turn" [TextBlock "Python is a programming language."])).
  - intros tr req H. simpl in *. unfold one_round_client. rewrite H. reflexivity.
  - intros tr req H. simpl in *. unfold one_round_client. rewrite H. reflexivity.
  - reflexivity.
  - reflexivity.
  - intros tr name input. eexists. reflexivity.
Defined.

(** * The HTTP endpoint *)

Lemma lstrip_spaces s :
  Forall (fun c => App.is_space c = true) s -> App.lstrip s = [].
Proof. induction 1 as [|c s Hc Hs IH]; simpl; [done|]. by rewrite Hc. Qed.




(** A query that is empty or holds only whitespace, Unicode whitespace
    included, is refused with status 400 and "Query cannot be empty",
    whatever the session and whatever the RAG system would have done. *)
Theorem blank_query_rejected rag q sid :
  Forall (fun c => App.is_space c = true) q ->
  App.query_documents rag (App.mkQueryRequest q sid)
  = App.HTTPException 400 "Query cannot be empty".
Proof.
  intros H. unfold App.query_documents, App.try_block. simpl.
  unfold App.strip. rewrite (lstrip_spaces q H). simpl.
  by rewrite orb_true_r.
Qed.

Lemma blank_query_rejected_witness :
  App.query_documents App.echo_rag
    (App.mkQueryRequest [32; 9; 160; 8195; 10]%N (Some "session_7"))
  = App.HTTPException 400 "Query cannot be empty".
Proof.
  apply (blank_query_rejected App.echo_rag [32; 9; 160; 8195; 10]%N
           (Some "session_7")).
  repeat constructor.
Defined.










(** * The code refines the transition system *)

Lemma rounds_loop_refines self bp tm max_rounds rounds :
  forall messages current w d sys ms,
    loop_ready bp messages d sys ms w ->
    wp (rounds_loop self bp tm max_rounds rounds messages current) w
       (fun r w' =>
          exists evs,
            trace w' = trace w ++ evs
            /\ loop_run self tm max_rounds messages sys (d !! "tools")
                 rounds ms current (trace w) r evs).
Proof.
  induction rounds as [|round_num rest IH]; intros messages current w d sys ms Hready.
  { apply wp_ret. exists []. rewrite app_nil_r. split; [done|constructor]. }
  destruct (_has_tool_use current) eqn:Huse.
  2:{ cbn [rounds_loop]. rewrite Huse. apply wp_ret. exists [].
      rewrite app_nil_r. split; [done|by constructor]. }
  eapply wp_round; [exact Hready|exact Huse| |].
  2:{ intros e evs w' He Htr _. exists evs. split; [done|].
      by apply loop_run_escape. }
  intros results error evs Hd.
  destruct (error_truthy error) eqn:Herr.
  { intros w' Htr _. exists evs. split; [done|]. by eapply loop_run_error. }
  intros d' w' ms2 tools Hbuilt req res Htr Hready'.
  subst res. destruct (client self (trace w ++ evs) req) as [resp|e] eqn:Hresp.
  2:{ exists (evs ++ [EvApi req (Raise e)]). split; [done|].
      by eapply loop_run_raise. }
  subst tools. destruct (round_num =? max_rounds) eqn:Hlast.
  { exists (evs ++ [EvApi req (Ok resp)]). split; [done|].
    by eapply loop_run_final. }
  eapply wp_mono; [apply (IH messages resp w' d sys ms2 Hready')|].
  cbn beta. intros r w'' (evs' & Htr' & Hrun).
  exists (evs ++ EvApi req (Ok resp) :: evs'). split.
  { rewrite Htr', Htr, <- !app_assoc. done. }
  eapply loop_run_next; try done. by rewrite Htr in Hrun.
Qed.

Lemma generate_response_refines self query history tools tm w :
  wp (generate_response self query history tools tm) w
     (fun r w' =>
        exists evs,
          trace w' = trace w ++ evs
          /\ query_run self query history tools tm (trace w) r evs).
Proof.
  unfold generate_response.
  apply (wp_generate_response_call self query history tools w
           (fun api_params response =>
              match tm with
              | Some tm =>
                  if String.eqb (stop_reason response) "tool_use" then
                    _handle_sequential_tool_execution self response
                      api_params tm 2
                  else content0_text response
              | None => content0_text response
              end)).
  intros messages p h Hm Hsub Hp Hmsgs req res. subst res.
  destruct (client self (trace w) req) as [resp|e] eqn:Hresp.
  2:{ exists [EvApi req (Raise e)]. split; [done|]. by apply query_run_raise. }
  assert (Hdirect :
    tm = None \/ String.eqb (stop_reason resp) "tool_use" = false ->
    wp (content0_text resp) (mkWorld h (trace w ++ [EvApi req (Ok resp)]))
       (fun r w' =>
          exists evs,
            trace w' = trace w ++ evs
            /\ query_run self query history tools tm (trace w) r evs)).
  { intros Hcase. unfold wp. rewrite content0_text_run. cbn [fst snd trace].
    exists [EvApi req (Ok resp)]. split; [done|].
    by apply (query_run_direct self query history tools tm (trace w) messages resp). }
  destruct tm as [tm|]; [|by apply Hdirect; left].
  destruct (String.eqb (stop_reason resp) "tool_use") eqn:Hstop;
    [|by apply Hdirect; right].
  eapply (wp_handle_sequential self resp p tm 2 _
            (initial_params self messages history tools) messages
            (VStr (system_content history))); cbn [heap trace];
    [done|apply initial_params_messages|done|apply initial_params_system| |].
  { intros l. rewrite initial_params_tools. apply catalog_value_not_list. }
  intros messages' w1 Hfresh Hsub1 Htr1 Hready.
  eapply wp_mono; [apply (rounds_loop_refines _ _ _ _ _ _ _ _ _ _ _ Hready)|].
  cbn beta. intros r w' (evs & Htr & Hrun).
  exists (EvApi req (Ok resp) :: evs). split.
  { rewrite Htr, Htr1, <- app_assoc. done. }
  rewrite initial_params_tools, Htr1 in Hrun.
  by eapply query_run_rounds.
Qed.

(** * Consequences for every run *)

Lemma split_at_api evs a rest pre b post :
  Forall (fun e => is_tool e = true) evs ->
  evs ++ a :: rest = pre ++ b :: post ->
  is_api a = true -> is_api b = true ->
  (pre = evs /\ a = b /\ rest = post)
  \/ exists pre', pre = evs ++ a :: pre' /\ rest = pre' ++ b :: post.
Proof.
  intros Hev. revert pre. induction Hev as [|x evs Hx Hev IH]; intros pre Heq Ha Hb.
  - destruct pre as [|p pre]; simpl in *; simplify_eq; [by left|].
    right. by exists pre.
  - destruct pre as [|p pre]; simpl in *; simplify_eq.
    + destruct b; simpl in *; congruence.
    + destruct (IH pre ltac:(done) Ha Hb) as [(-> & -> & ->)|(pre' & -> & ->)];
        [by left|right; by exists pre'].
Qed.

Lemma no_api_among_tools evs pre req res post :
  Forall (fun e => is_tool e = true) evs ->
  evs <> pre ++ EvApi req res :: post.
Proof.
  intros Hev ->. apply Forall_app in Hev as [_ Hev].
  inversion Hev as [|? ? Hx _]. discriminate Hx.
Qed.

Lemma loop_run_raise_last self tm max_rounds messages sys tools rounds ms
    current tr r evs :
  loop_run self tm max_rounds messages sys tools rounds ms current tr r evs ->
  forall pre req e post,
    evs = pre ++ EvApi req (Raise e) :: post -> r = Raise e /\ post = [].
Proof.
  induction 1 as [| |? ? ? ? ? ? ? ? ? Hd|? ? ? ? ? ? ? ? Hd
                    |? ? ? ? ? ? ? ? ? ? ? Hd
                    |? ? ? ? ? ? ? ? ? ? ? Hd|? ? ? ? ? ? ? ? ? ? ? ? ? Hd ? ? ? ? ? IH];
    intros pre req e' post Heq.
  - by destruct pre.
  - by destruct pre.
  - by destruct (no_api_among_tools _ _ _ _ _
                   (dispatches_all_tool _ _ _ _ _ _ Hd) Heq).
  - by destruct (no_api_among_tools _ _ _ _ _
                   (dispatch_escapes_all_tool _ _ _ _ _ Hd) Heq).
  - apply split_at_api in Heq as [(_ & [=] & _)|(pre' & _ & Hnil)];
      eauto using dispatches_all_tool. by destruct pre'.
  - apply split_at_api in Heq as [(_ & [= <- <-] & <-)|(pre' & _ & Hnil)];
      eauto using dispatches_all_tool. by destruct pre'.
  - apply split_at_api in Heq as [(_ & [=] & _)|(pre' & _ & Hrest)];
      eauto using dispatches_all_tool.
Qed.

(** An exception raised by a model call is not handled: it is what
    [generate_response] raises, and nothing is dispatched or sent after
    the call that failed. *)
Theorem model_exception_propagates self query history tools tm w pre req e post :
  trace (generate_response self query history tools tm w).2
    = trace w ++ pre ++ EvApi req (Raise e) :: post ->
  (generate_response self query history tools tm w).1 = Raise e
  /\ post = [].
Proof.
  intros Htr.
  pose proof (generate_response_refines self query history tools tm w) as H.
  unfold wp in H.
  destruct (generate_response self query history tools tm w) as [r0 w'].
  cbn [fst snd] in *. destruct H as (evs & Hevs & Hrun).
  rewrite Hevs in Htr. apply app_inv_head in Htr.
  destruct Hrun as [messages e0 Hc|messages resp Hc Hcase
                   |messages messages' resp tm' r evs Hc -> Hstop Hloop].
  - destruct pre as [|? [|? ?]]; simpl in *; simplify_eq. done.
  - destruct pre as [|? [|? ?]]; simpl in *; simplify_eq.
  - destruct pre as [|p pre]; simpl in *; simplify_eq.
    eapply loop_run_raise_last; eauto.
Qed.

Lemma model_exception_propagates_witness :
  (generate_response (mkAIGenerator raising_client demo_model)
     "What is Python?" None (Some demo_catalog) (Some ok_tools) empty_world).1
  = Raise (PyExn "APIConnectionError" "Connection error.")
  /\ @nil Event = [].
Proof.
  eapply (model_exception_propagates (mkAIGenerator raising_client demo_model)
            "What is Python?" None (Some demo_catalog) (Some ok_tools)
            empty_world []).
  vm_compute. reflexivity.
Defined.

(** What the loop raises was raised by its last model call, or by its
    last dispatch when the [except Exception] clause does not catch it. *)
Lemma loop_run_raised self tm max_rounds messages sys tools rounds ms
    current tr r evs :
  loop_run self tm max_rounds messages sys tools rounds ms current tr r evs ->
  forall e, r = Raise e ->
    exists pre last,
      evs = pre ++ [last]
      /\ ((exists req, last = EvApi req (Raise e))
          \/ (exists name input,
                last = EvTool name input (Raise e)
                /\ is_Exception e = false)).
Proof.
  induction 1 as [| | |? ? ? ? ? ? ? ? Hd| | |? ? ? ? ? ? ? ? ? ? ? ? ? ? ? ? ? ? ? IH];
    intros e' Hr; try discriminate.
  - injection Hr as <-.
    destruct (dispatch_escapes_last _ _ _ _ _ Hd)
      as (He & pre & name & id & input & post & outs & _ & _ & -> & _).
    eexists _, _. split; [done|]. right. by exists name, input.
  - injection Hr as <-. eexists _, _. split; [done|]. left. by eexists.
  - destruct (IH _ Hr) as (pre & last & -> & Hlast).
    eexists (evs ++ EvApi _ (Ok resp) :: pre), last.
    split; [by rewrite <- app_assoc|done].
Qed.

(** When [generate_response] raises, the exception has one of three
    origins: its last model call raised it; or its only model call was
    answered and the direct return [response.content[0].text] failed; or
    its last dispatch raised it and it is no instance of [Exception].
    So an instance of [Exception] raised by the dispatcher never leaves
    [generate_response], and [KeyboardInterrupt] and the like do. *)
Theorem raised_exception_origin self query history tools tm w e :
  (generate_response self query history tools tm w).1 = Raise e ->
  exists pre last,
    trace (generate_response self query history tools tm w).2
      = trace w ++ pre ++ [last]
    /\ ((exists req, last = EvApi req (Raise e))
        \/ (exists req resp,
              last = EvApi req (Ok resp) /\ pre = []
              /\ content0_result resp = Raise e)
        \/ (exists name input,
              last = EvTool name input (Raise e)
              /\ is_Exception e = false)).
Proof.
  intros Hr.
  pose proof (generate_response_refines self query history tools tm w) as H.
  unfold wp in H.
  destruct (generate_response self query history tools tm w) as [r0 w'].
  cbn [fst snd] in *. destruct H as (evs & Hevs & Hrun). rewrite Hevs.
  subst r0. clear Hevs.
  inversion Hrun as [messages e0 Hc|messages resp Hc Hcase
                    |messages messages' resp tm' r evs' Hc Htm Hstop Hloop];
    subst.
  - eexists [], _. split; [done|]. left. by eexists.
  - eexists [], _. split; [done|]. right. left. by eexists _, resp.
  - destruct (loop_run_raised _ _ _ _ _ _ _ _ _ _ _ _ Hloop e eq_refl)
      as (pre & last & -> & [Hlast|Hlast]).
    + eexists (EvApi _ (Ok resp) :: pre), last. split; [done|by left].
    + eexists (EvApi _ (Ok resp) :: pre), last. split; [done|by right; right].
Qed.

Lemma raised_exception_origin_witness :
  exists pre last,
    trace (generate_response
             (mkAIGenerator (fixed_client (mkResponse "tool_use" [search_block]))
                demo_model)
             "What is Python?" None (Some demo_catalog)
             (Some interrupted_tools) empty_world).2
      = trace empty_world ++ pre ++ [last]
    /\ ((exists req,
           last = EvApi req (Raise (PyBaseExn "KeyboardInterrupt" EmptyString)))
        \/ (exists req resp,
              last = EvApi req (Ok resp) /\ pre = []
              /\ content0_result resp
                 = Raise (PyBaseExn "KeyboardInterrupt" EmptyString))
        \/ (exists name input,
              last = EvTool name input
                       (Raise (PyBaseExn "KeyboardInterrupt" EmptyString))
              /\ is_Exception (PyBaseExn "KeyboardInterrupt" EmptyString)
                 = false)).
Proof.
  apply (raised_exception_origin
           (mkAIGenerator (fixed_client (mkResponse "tool_use" [search_block]))
              demo_model)
           "What is Python?" None (Some demo_catalog) (Some interrupted_tools)
           empty_world).
  vm_compute. reflexivity.
Defined.

Lemma round_turns_snoc turns blocks results :
  round_turns turns ->
  round_turns (turns ++ [mkMessage "assistant" (BlockContent blocks);
                         mkMessage "user" (ResultContent results)]).
Proof.
  induction 1; simpl; repeat constructor; auto.
Qed.

Lemma built_from_base self messages sys tools d :
  built_from self messages sys tools d ->
  d !! "model" = Some (VStr (model self))
  /\ d !! "temperature" = Some (VInt 0)
  /\ d !! "max_tokens" = Some (VInt 800)
  /\ d !! "system" = Some sys.
Proof.
  intros [[-> _]|(v & _ & -> & _)].
  - repeat split; try reflexivity.
  - rewrite !with_tools_other by done. repeat split; try reflexivity.
Qed.

Lemma initial_params_base self messages history tools :
  initial_params self messages history tools !! "model" = Some (VStr (model self))
  /\ initial_params self messages history tools !! "temperature" = Some (VInt 0)
  /\ initial_params self messages history tools !! "max_tokens" = Some (VInt 800).
Proof.
  unfold initial_params. destruct (catalog_value tools).
  - rewrite !with_tools_other by done. repeat split; reflexivity.
  - repeat split; reflexivity.
Qed.

Lemma loop_run_well_formed self query history tm max_rounds messages tools
    rounds ms current tr r evs :
  loop_run self tm max_rounds messages (VStr (system_content history)) tools
    rounds ms current tr r evs ->
  forall turns,
    ms = mkMessage "user" (TextContent query) :: turns ->
    round_turns turns ->
    Forall (event_well_formed self query history) evs.
Proof.
  induction 1 as [| |? ? ? ? ? ? ? ? ? Hd|? ? ? ? ? ? ? ? Hd
                    |? ? ? ? ? ? ? ? ? ? ? Hd ? ? Hb
                    |? ? ? ? ? ? ? ? ? ? ? Hd ? Hb
                    |? ? ? ? ? ? ? ? ? ? ? ? ? Hd ? ? Hb ? ? IH];
    intros turns -> Hturns; try by constructor.
  - eapply Forall_impl; [exact (dispatches_all_tool _ _ _ _ _ _ Hd)|].
    by intros [].
  - eapply Forall_impl; [exact (dispatch_escapes_all_tool _ _ _ _ _ Hd)|].
    by intros [].
  - apply Forall_app. split.
    { eapply Forall_impl; [exact (dispatches_all_tool _ _ _ _ _ _ Hd)|].
      by intros []. }
    constructor; [|constructor].
    destruct (built_from_base _ _ _ _ _ Hb) as (? & ? & ? & ?).
    repeat split; auto. eexists. split; [reflexivity|].
    by apply round_turns_snoc.
  - apply Forall_app. split.
    { eapply Forall_impl; [exact (dispatches_all_tool _ _ _ _ _ _ Hd)|].
      by intros []. }
    constructor; [|constructor].
    destruct (built_from_base _ _ _ _ _ Hb) as (? & ? & ? & ?).
    repeat split; auto. eexists. split; [reflexivity|].
    by apply round_turns_snoc.
  - apply Forall_app. split.
    { eapply Forall_impl; [exact (dispatches_all_tool _ _ _ _ _ _ Hd)|].
      by intros []. }
    constructor.
    + destruct (built_from_base _ _ _ _ _ Hb) as (? & ? & ? & ?).
      repeat split; auto. eexists. split; [reflexivity|].
      by apply round_turns_snoc.
    + eapply IH; [reflexivity|]. by apply round_turns_snoc.
Qed.

(** Every request of every query carries the generator's model,
    temperature 0, at most 800 tokens and the query's system string, and
    a transcript that starts with the user's query and goes on in pairs
    of an assistant turn and a tool-result turn. *)
Theorem requests_well_formed self query history tools tm w :
  exists evs,
    trace (generate_response self query history tools tm w).2 = trace w ++ evs
    /\ Forall (event_well_formed self query history) evs.
Proof.
  pose proof (generate_response_refines self query history tools tm w) as H.
  unfold wp in H. destruct H as (evs & Hevs & Hrun).
  exists evs. split; [done|].
  assert (Hfirst : forall messages,
    request_well_formed self query history
      (mkRequest (initial_params self messages history tools) [user_turn query])).
  { intros messages.
    destruct (initial_params_base self messages history tools) as (? & ? & ?).
    repeat split; auto; [apply initial_params_system|].
    exists []. split; [done|constructor]. }
  destruct Hrun as [messages e0 Hc|messages resp Hc Hcase
                   |messages messages' resp tm' r evs Hc -> Hstop Hloop].
  - constructor; [apply Hfirst|constructor].
  - constructor; [apply Hfirst|constructor].
  - constructor; [apply Hfirst|].
    eapply loop_run_well_formed; [exact Hloop|reflexivity|constructor].
Qed.

Lemma tool_uses_app pre post :
  tool_uses (pre ++ post) = tool_uses pre ++ tool_uses post.
Proof. induction pre as [|[]]; simpl; congruence. Qed.

Lemma dispatches_requested tm tr blocks acc out evs :
  dispatches tm tr blocks acc out evs ->
  forall stop pre,
    Forall (requested_by (mkResponse stop (pre ++ blocks))) evs.
Proof.
  induction 1 as [| |? name id input rest ? ? ? ? ? ? IH|? name id input rest];
    intros stop pre; simpl.
  - constructor.
  - replace (pre ++ TextBlock text :: rest)
      with ((pre ++ [TextBlock text]) ++ rest) by by rewrite <- app_assoc.
    apply IHdispatches.
  - constructor.
    + exists id. simpl. rewrite tool_uses_app. simpl.
      apply elem_of_app. right. by left.
    + replace (pre ++ ToolUseBlock name id input :: rest)
        with ((pre ++ [ToolUseBlock name id input]) ++ rest)
        by by rewrite <- app_assoc.
      apply IH.
  - constructor; [|constructor].
    exists id. simpl. rewrite tool_uses_app. simpl.
    apply elem_of_app. right. by left.
Qed.

Lemma dispatch_escapes_requested tm tr blocks e evs :
  dispatch_escapes tm tr blocks e evs ->
  forall stop pre,
    Forall (requested_by (mkResponse stop (pre ++ blocks))) evs.
Proof.
  induction 1 as [? text rest ? ? ? IH|? name id input rest ? ? ? ? ? IH
                 |? name id input rest];
    intros stop pre; simpl.
  - replace (pre ++ TextBlock text :: rest)
      with ((pre ++ [TextBlock text]) ++ rest) by by rewrite <- app_assoc.
    apply IH.
  - constructor.
    + exists id. simpl. rewrite tool_uses_app. simpl.
      apply elem_of_app. right. by left.
    + replace (pre ++ ToolUseBlock name id input :: rest)
        with ((pre ++ [ToolUseBlock name id input]) ++ rest)
        by by rewrite <- app_assoc.
      apply IH.
  - constructor; [|constructor].
    exists id. simpl. rewrite tool_uses_app. simpl.
    apply elem_of_app. right. by left.
Qed.

Lemma all_requested_app current evs rest :
  Forall (requested_by current) evs ->
  all_requested current rest ->
  all_requested current (evs ++ rest).
Proof.
  induction 1 as [|[] ? Hx ? IH]; simpl; auto. by destruct Hx.
Qed.

Lemma loop_run_requested self tm max_rounds messages sys tools rounds ms
    current tr r evs :
  loop_run self tm max_rounds messages sys tools rounds ms current tr r evs ->
  all_requested current evs.
Proof.
  assert (Hround : forall (reply : Response) results error evs0 tr0,
    dispatches tm tr0 (content reply) [] (results, error) evs0 ->
    Forall (requested_by reply) evs0).
  { intros [stop blocks] results error evs0 tr0 Hd.
    apply (dispatches_requested _ _ _ _ _ _ Hd stop []). }
  assert (Hescape : forall (reply : Response) e evs0 tr0,
    dispatch_escapes tm tr0 (content reply) e evs0 ->
    Forall (requested_by reply) evs0).
  { intros [stop blocks] e evs0 tr0 Hd.
    apply (dispatch_escapes_requested _ _ _ _ _ Hd stop []). }
  induction 1; simpl; auto.
  - rewrite <- (app_nil_r evs). apply all_requested_app; [eauto|done].
  - rewrite <- (app_nil_r evs). apply all_requested_app; [eauto|done].
  - apply all_requested_app; [eauto|done].
  - apply all_requested_app; [eauto|]. simpl. constructor.
  - apply all_requested_app; [eauto|done].
Qed.

(** The engine dispatches only what the model asked for: every dispatch
    of a query carries the name and the arguments of an invocation block
    of the latest reply received before it, and nothing is dispatched
    after a model call that raised. *)
Theorem dispatches_come_from_replies self query history tools tm w :
  exists req res evs,
    trace (generate_response self query history tools tm w).2
      = trace w ++ EvApi req res :: evs
    /\ match res with
       | Ok first_reply => all_requested first_reply evs
       | Raise _ => evs = []
       end.
Proof.
  pose proof (generate_response_refines self query history tools tm w) as H.
  unfold wp in H. destruct H as (evs & Hevs & Hrun).
  destruct Hrun as [messages e0 Hc|messages resp Hc Hcase
                   |messages messages' resp tm' r evs Hc -> Hstop Hloop].
  - by eexists _, (Raise e0), [].
  - by eexists _, (Ok resp), [].
  - eexists _, (Ok resp), evs. split; [done|].
    by eapply loop_run_requested.
Qed.

(** Without a dispatcher, a query is one model call and nothing else,
    whatever the model replies. *)
Theorem no_dispatcher_single_call self query history tools w :
  exists req,
    trace (generate_response self query history tools None w).2
    = trace w
      ++ [EvApi req (client self (trace w) req)]
    /\ req_messages req = [mkMessage "user" (TextContent query)].
Proof.
  pose proof (generate_response_refines self query history tools None w) as H.
  unfold wp in H. destruct H as (evs & Hevs & Hrun).
  destruct Hrun as [messages e0 Hc|messages resp Hc Hcase
                   |messages messages' resp tm' r evs Hc Htm Hstop Hloop];
    [| |discriminate].
  - eexists. rewrite Hc. split; [exact Hevs|done].
  - eexists. rewrite Hc. split; [exact Hevs|done].
Qed.

(** * The catalog along a query *)

Lemma catalog_policy_tools tools m c evs rest :
  Forall (fun e => is_tool e = true) evs ->
  catalog_policy tools m c rest -> catalog_policy tools m c (evs ++ rest).
Proof. induction 1 as [|[] ? Hx ? IH]; simpl; auto. discriminate. Qed.

Lemma loop_run_catalog self tm max_rounds messages sys tools rounds ms
    current tr r evs :
  loop_run self tm max_rounds messages sys (catalog_value tools) rounds ms
    current tr r evs ->
  forall c j : nat,
    rounds = seqZ (Z.of_nat c) (Z.of_nat j) ->
    Z.of_nat c + Z.of_nat j = max_rounds + 1 ->
    catalog_policy tools max_rounds c evs.
Proof.
  induction 1 as [| |? ? ? ? ? ? ? ? ? Hd|? ? ? ? ? ? ? ? Hd
                    |round_num ? ? ? ? ? ? ? ? ? ? Hd ? Hlast Hb
                    |round_num ? ? ? ? ? ? ? ? ? ? Hd ? Hb
                    |round_num ? ? ? ? ? ? ? ? ? ? ? ? Hd ? Hlast Hb ? ? IH];
    intros c j Hrounds Hsum; try done.
  - rewrite <- (app_nil_r evs).
    by apply catalog_policy_tools; [exact (dispatches_all_tool _ _ _ _ _ _ Hd)|].
  - rewrite <- (app_nil_r evs).
    by apply catalog_policy_tools; [exact (dispatch_escapes_all_tool _ _ _ _ _ Hd)|].
  - destruct j as [|j]; [done|]. rewrite seqZ_cons in Hrounds by lia.
    injection Hrounds as -> _.
    apply catalog_policy_tools; [exact (dispatches_all_tool _ _ _ _ _ _ Hd)|].
    simpl. split; [|done].
    assert ((Z.of_nat c <? max_rounds) = false) as -> by lia.
    rewrite (built_from_none _ _ _ _ Hb). apply plain_params_offers_nothing.
  - destruct j as [|j]; [done|]. rewrite seqZ_cons in Hrounds by lia.
    injection Hrounds as -> _.
    apply catalog_policy_tools; [exact (dispatches_all_tool _ _ _ _ _ _ Hd)|].
    simpl. split; [|done].
    destruct (Z.of_nat c =? max_rounds) eqn:Hlast.
    + assert ((Z.of_nat c <? max_rounds) = false) as -> by lia.
      rewrite (built_from_none _ _ _ _ Hb). apply plain_params_offers_nothing.
    + assert ((Z.of_nat c <? max_rounds) = true) as -> by lia.
      by eapply built_from_catalog.
  - destruct j as [|j]; [done|]. rewrite seqZ_cons in Hrounds by lia.
    injection Hrounds as -> ->.
    apply catalog_policy_tools; [exact (dispatches_all_tool _ _ _ _ _ _ Hd)|].
    simpl. split.
    + assert ((Z.of_nat c <? max_rounds) = true) as -> by lia.
      by eapply built_from_catalog.
    + apply (IH (S c) j); [f_equal; lia|lia].
Qed.

(** C6, amended.  Of the model requests of a query, the initial one and
    the one after the first round carry the tool catalog together with
    automatic tool choice exactly when the catalog supplied to
    [generate_response] is a non-empty list, and neither field when it
    is absent or empty.  The third request, the forced final call after
    round two, carries neither field whatever catalog was supplied.
    There is no fourth request. *)
Theorem catalog_offered_until_final_call self query history tools tm w :
  exists evs,
    trace (generate_response self query history tools tm w).2 = trace w ++ evs
    /\ (api_calls evs <= 3)%nat
    /\ catalog_policy tools 2 0 evs.
Proof.
  pose proof (generate_response_refines self query history tools tm w) as H.
  pose proof (generate_response_first self query history tools tm w) as Hb.
  unfold wp in H, Hb. destruct H as (evs & Hevs & Hrun).
  destruct Hb as [_ (m0 & evs0 & Htr0 & _ & Ha & _)].
  exists evs. split; [done|]. split.
  { rewrite Hevs in Htr0. apply app_inv_head in Htr0 as ->. simpl. lia. }
  destruct Hrun as [messages e0 Hc|messages resp Hc Hcase
                   |messages messages' resp tm' r evs Hc -> Hstop Hloop];
    simpl; (split; [apply initial_params_catalog|]); try done.
  apply (loop_run_catalog _ _ _ _ _ _ _ _ _ _ _ _ Hloop 1%nat 2%nat); done.
Qed.

(** C6 as stated fails at the forced final call: with a non-empty
    catalog supplied, the third request of a two-round query carries
    neither the catalog nor a tool choice. *)
Lemma final_call_withholds_catalog :
  api_calls (trace (generate_response
                      (mkAIGenerator two_round_client demo_model)
                      "Complex query" None (Some demo_catalog)
                      (Some ok_tools) empty_world).2) = 3%nat
  /\ match last (trace (generate_response
                       (mkAIGenerator two_round_client demo_model)
                       "Complex query" None (Some demo_catalog)
                       (Some ok_tools) empty_world).2) with
  | Some (EvApi req _) =>
      offers_nothing (req_params req)
      /\ ~ offers_catalog_iff (Some demo_catalog) (req_params req)
  | _ => False
  end.
Proof.
  vm_compute. split; [done|]. split; [done|].
  intros [H _]. discriminate.
Qed.
